(** * P2PFileTransfer (src/index.js): chunked transfer and the peer registry

    A shallow embedding of the [P2PFileTransfer] class.  JavaScript values
    are a small inductive type, the data channel and the [FileReader] loop of
    the sender are a state machine whose tasks are the event handlers of the
    source, and the coordinator ([this.peers], the peer connections, the
    callbacks) is a record threaded through a state-and-exception monad. *)

From stdpp Require Import gmap strings list fin_maps.
From Stdlib Require Import NArith ZArith Lia.
From Stdlib.Strings Require Import Byte.

Local Open Scope N_scope.

Set Warnings "-register-all".

(** ** JavaScript values *)

Inductive value : Type :=
| VUndefined
| VNull
| VBool (b : bool)
| VNum (n : Z)
| VStr (s : string)
| VArr (items : list value)
| VObj (fields : list (string * value)).

Inductive error : Type :=
| TypeError
| SyntaxError
| InvalidStateError
| OtherError (detail : string).

(** [o.k] on an object whose keys are distinct: the field, or [undefined]. *)
Fixpoint field (k : string) (fs : list (string * value)) : value :=
  match fs with
  | [] => VUndefined
  | (k', v) :: rest => if String.eqb k k' then v else field k rest
  end.

(** Property read [v.k] for the keys this program reads ([type], [sdp],
    [candidate], [fileName], [fileSize], [fileType]): reading from
    [undefined] or [null] throws, primitives and arrays have no such
    property. *)
Definition get (v : value) (k : string) : error + value :=
  match v with
  | VUndefined | VNull => inl TypeError
  | VObj fs => inr (field k fs)
  | _ => inr VUndefined
  end.

(** [if (v)] *)
Definition truthy (v : value) : bool :=
  match v with
  | VUndefined | VNull => false
  | VBool b => b
  | VNum n => negb (Z.eqb n 0)
  | VStr s => negb (String.eqb s EmptyString)
  | VArr _ | VObj _ => true
  end.

(** [v === 'lit'] *)
Definition is_str (v : value) (lit : string) : bool :=
  match v with
  | VStr s => String.eqb s lit
  | _ => false
  end.

(** ** Files, blobs and channel messages *)

Record File := mkFile { name : string; type : string; bytes : list byte }.

Definition len (b : list byte) : N := N.of_nat (length b).

Definition size (f : File) : N := len (bytes f).

(** [file.slice(start, end)] read as an array buffer; both ends are clamped
    to the file. *)
Definition slice (f : File) (start end_ : N) : list byte :=
  take (N.to_nat (end_ - start)) (drop (N.to_nat start) (bytes f)).

Record Blob := mkBlob { blob_bytes : list byte; blob_type : value }.

(** [new Blob(parts, { type })] *)
Definition new_Blob (parts : list (list byte)) (ty : value) : Blob :=
  mkBlob (concat parts) ty.

Definition blob_size (b : Blob) : N := len (blob_bytes b).

Inductive message : Type :=
| Text (s : string)
| Binary (b : list byte).

Definition byteSize (m : message) : N :=
  match m with
  | Text s => N.of_nat (String.length s)
  | Binary b => len b
  end.

(** Total size of a list of messages, as [bufferedAmount] counts them. *)
Definition bytes_sent (ms : list message) : N :=
  foldr (fun m acc => byteSize m + acc) 0 ms.

(** The binary messages among [ms], in order. *)
Fixpoint binaries (ms : list message) : list (list byte) :=
  match ms with
  | [] => []
  | Binary b :: rest => b :: binaries rest
  | Text _ :: rest => binaries rest
  end.

(** The callbacks handed to the constructor and [socket.emit]: every call is
    appended to a log. *)
Inductive effect : Type :=
| onError (e : error)
| onProgress (done : N) (total : value)
| onComplete (blob : Blob) (fileName : value) (peerId : string)
| onConnectionStateChange (peerId : string) (state : string)
| emit (to : string) (data : value).

(** [this.chunkSize = 16384] *)
Definition default_chunkSize : N := 16384.

(** [JSON.stringify] and [JSON.parse] of the host; a text that does not
    parse makes [JSON.parse] throw a [SyntaxError] ([None]). *)
Class JSON := {
  JSON_stringify : value -> string;
  JSON_parse : string -> option value
}.

(** The control frames, before [JSON.stringify]. *)
Definition metadata_frame (f : File) : value :=
  VObj [("type", VStr "metadata"); ("fileName", VStr (name f));
        ("fileSize", VNum (Z.of_N (size f))); ("fileType", VStr (type f))]%string.

Definition end_frame : value := VObj [("type", VStr "end")]%string.

(** ** The sender: [_sendFileInChunks] *)

Module Sender.

Inductive readyState := connecting | open | closing | closed.

#[global] Instance readyState_eq_dec : EqDecision readyState.
Proof. solve_decision. Defined.

(** The sender's view of its [RTCDataChannel]: [send] appends to the
    transport's queue and adds the message's size to [bufferedAmount]. *)
Record RTCDataChannel := mkChannel {
  ready : readyState;
  bufferedAmount : N;
  sent : list message
}.

(** [channel.send(m)] on an open channel.  On any other channel it throws;
    [reader.onload] calls it inside its [readyState === 'open'] guard only,
    and [_sendFileInChunks] below accounts for the throw. *)
Definition send (m : message) (c : RTCDataChannel) : RTCDataChannel :=
  mkChannel (ready c) (bufferedAmount c + byteSize m) (sent c ++ [m]).

(** What the loop waits for: the [FileReader] delivering [result] to
    [onload], the [setTimeout] timer, or nothing at all. *)
Inductive pending :=
| reading (result : list byte)
| timeout (ms : N)
| idle.

Record sender := mkSender {
  file : File;
  offset : N;
  channel : RTCDataChannel;
  calls : list effect;
  next : pending
}.

(** What the transport did since the previous task: bytes taken off the
    queue and the channel's [readyState] now. *)
Record transport := mkTransport { drained : N; state : readyState }.

Definition observe (t : transport) (c : RTCDataChannel) : RTCDataChannel :=
  mkChannel (state t) (bufferedAmount c - drained t) (sent c).

Section Loop.

Context `{JSON}.
Variable chunkSize : N.

(** [readSlice]: slice at the current offset and start reading it. *)
Definition readSlice (s : sender) : sender :=
  mkSender (file s) (offset s) (channel s) (calls s)
           (reading (slice (file s) (offset s) (offset s + chunkSize))).

(** [reader.onload] *)
Definition reader_onload (s : sender) (result : list byte) : sender :=
  if decide (ready (channel s) = open) then
    let c1 := send (Binary result) (channel s) in
    let offset' := offset s + len result in
    let calls' := calls s ++ [onProgress offset' (VNum (Z.of_N (size (file s))))] in
    if offset' <? size (file s) then
      if chunkSize * 10 <? bufferedAmount c1 then
        mkSender (file s) offset' c1 calls' (timeout 100)
      else
        readSlice (mkSender (file s) offset' c1 calls' idle)
    else
      mkSender (file s) offset'
               (send (Text (JSON_stringify end_frame)) c1) calls' idle
  else
    mkSender (file s) (offset s) (channel s) (calls s) idle.

(** [_sendFileInChunks(channel, file)], up to its return.  It runs in
    [onopen]; were the channel not open, the first [send] would throw and
    the function would end there, with nothing sent and nothing pending. *)
Definition _sendFileInChunks (c : RTCDataChannel) (f : File) : sender :=
  if decide (ready c = open) then
    readSlice (mkSender f 0 (send (Text (JSON_stringify (metadata_frame f))) c)
                        [] idle)
  else mkSender f 0 c [] idle.

(** One task of the event loop: the pending handler runs on the channel as
    the transport left it. *)
Definition step (t : transport) (s : sender) : sender :=
  let s' := mkSender (file s) (offset s) (observe t (channel s)) (calls s) (next s) in
  match next s with
  | reading result => reader_onload s' result
  | timeout _ => readSlice s'
  | idle => s
  end.

Fixpoint run (ts : list transport) (s : sender) : sender :=
  match ts with
  | [] => s
  | t :: rest => run rest (step t s)
  end.

End Loop.

End Sender.

(** ** The coordinator: registry, negotiation and the receiver *)

Module Coordinator.

(** An [RTCPeerConnection].  Its three handlers close over [peerId]
    ([owner]); [closed] records a call of [close()]; a channel made by
    [createDataChannel] carries the file its sender handlers close over. *)
Record localChannel := mkLocal { label : string; sending : option File }.

Record RTCPeerConnection := mkPc {
  owner : string;
  closed : bool;
  dataChannels : list localChannel
}.

(** The [peerData] object; [pc] is a reference into [connections]. *)
Record peerData := mkPeerData {
  pc : nat;
  isInitiator : bool;
  receivedChunks : list (list byte);
  receivedBytes : N;
  fileMetadata : value
}.

(** An incoming data channel after [_setupDataChannel(channel, null, false,
    peerId)]: its handlers close over [peerId] and over
    [this.peers.get(peerId)] as it was then, a reference or [undefined]. *)
Record receiver := mkReceiver { rx_peerData : option nat; rx_peerId : string }.

(** The instance: [this.peers] maps a peer id to a reference into
    [objects]; [log] holds the callbacks invoked and the signals emitted,
    oldest first; [listening] is the socket subscription. *)
Record P2PFileTransfer := mkTransfer {
  peers : gmap string nat;
  objects : list peerData;
  connections : list RTCPeerConnection;
  receivers : list receiver;
  log : list effect;
  listening : bool
}.

(** [new P2PFileTransfer(socket, signalEvent, callbacks)] *)
Definition constructor : P2PFileTransfer := mkTransfer ∅ [] [] [] [] true.

(** State and exceptions: a computation ends normally or by a throw (for an
    async function, a rejected promise). *)
Definition M (A : Type) : Type := P2PFileTransfer -> (error + A) * P2PFileTransfer.

#[global] Instance M_ret : MRet M := fun A a w => (inr a, w).

#[global] Instance M_bind : MBind M := fun A B f m w =>
  match m w with
  | (inl e, w') => (inl e, w')
  | (inr a, w') => f a w'
  end.

Definition throw {A} (e : error) : M A := fun w => (inl e, w).

(** [try { m } catch (err) { h(err) }] *)
Definition try_catch {A} (m : M A) (h : error -> M A) : M A := fun w =>
  match m w with
  | (inl e, w') => h e w'
  | r => r
  end.

Definition lift {A} (r : error + A) : M A :=
  match r with inl e => throw e | inr a => mret a end.

(** [await p] for a promise of the negotiator that settles as [outcome]. *)
Definition await (outcome : option error) : M unit :=
  match outcome with Some e => throw e | None => mret tt end.

Definition read : M P2PFileTransfer := fun w => (inr w, w).

Definition call (e : effect) : M unit := fun w =>
  (inr tt, mkTransfer (peers w) (objects w) (connections w) (receivers w)
                      (log w ++ [e]) (listening w)).

Definition set_objects (os : list peerData) : M unit := fun w =>
  (inr tt, mkTransfer (peers w) os (connections w) (receivers w) (log w) (listening w)).

Definition set_connections (cs : list RTCPeerConnection) : M unit := fun w =>
  (inr tt, mkTransfer (peers w) (objects w) cs (receivers w) (log w) (listening w)).

Definition set_peers (ps : gmap string nat) : M unit := fun w =>
  (inr tt, mkTransfer ps (objects w) (connections w) (receivers w) (log w) (listening w)).

Definition set_receivers (rs : list receiver) : M unit := fun w =>
  (inr tt, mkTransfer (peers w) (objects w) (connections w) rs (log w) (listening w)).

Definition set_listening (b : bool) : M unit := fun w =>
  (inr tt, mkTransfer (peers w) (objects w) (connections w) (receivers w) (log w) b).

(** [this.peers.get(peerId)]: the object's reference and its fields. *)
Definition peers_get (w : P2PFileTransfer) (peerId : string) : option (nat * peerData) :=
  r ← peers w !! peerId; pd ← objects w !! r; Some (r, pd).

(** [_sendSignal(to, data)] *)
Definition _sendSignal (to : string) (data : value) : M unit := call (emit to data).

(** [pc.close()] *)
Definition close (c : RTCPeerConnection) : RTCPeerConnection :=
  mkPc (owner c) true (dataChannels c).

(** [_cleanupPeer(peerId)] *)
Definition _cleanupPeer (peerId : string) : M unit :=
  w ← read;
  match peers_get w peerId with
  | Some (_, pd) =>
      set_connections (alter close (pc pd) (connections w));;
      set_peers (delete peerId (peers w))
  | None => mret tt
  end.

(** [_getOrCreatePeerConnection(peerId, isInitiator)]; [ctor] is what
    [new RTCPeerConnection] throws, if it does. *)
Definition _getOrCreatePeerConnection (ctor : option error)
    (peerId : string) (isInitiator : bool) : M nat :=
  w ← read;
  match peers w !! peerId with
  | Some r =>
      match objects w !! r with
      | Some pd => mret (pc pd)
      | None => throw TypeError
      end
  | None =>
      await ctor;;
      let p := length (connections w) in
      let r := length (objects w) in
      set_connections (connections w ++ [mkPc peerId false []]);;
      set_objects (objects w ++ [mkPeerData p isInitiator [] 0 VNull]);;
      set_peers (<[peerId := r]> (peers w));;
      mret p
  end.

(** [pc.createDataChannel(label)]: throws on a closed connection. *)
Definition createDataChannel (p : nat) (l : string) : M nat :=
  w ← read;
  match connections w !! p with
  | Some c =>
      if closed c then throw InvalidStateError
      else
        set_connections
          (<[p := mkPc (owner c) false (dataChannels c ++ [mkLocal l None])]>
             (connections w));;
        mret (length (dataChannels c))
  | None => throw TypeError
  end.

(** [_setupDataChannel(channel, file, true)]: the sender branch installs
    [onopen] and [onerror], which close over [file]. *)
Definition _setupDataChannel_sender (p d : nat) (f : File) : M unit :=
  w ← read;
  match connections w !! p with
  | Some c =>
      set_connections
        (<[p := mkPc (owner c) (closed c)
                     (alter (fun ch => mkLocal (label ch) (Some f)) d (dataChannels c))]>
           (connections w))
  | None => mret tt
  end.

(** [_setupDataChannel(channel, null, false, peerId)]: the receiver branch. *)
Definition _setupDataChannel_receiver (peerId : string) : M unit :=
  w ← read;
  set_receivers (receivers w ++ [mkReceiver (peers w !! peerId) peerId]).

(** [_assembleFile(peerId)] *)
Definition _assembleFile (peerId : string) : M unit :=
  w ← read;
  match peers_get w peerId with
  | None => mret tt
  | Some (_, pd) =>
      if negb (truthy (fileMetadata pd)) then mret tt
      else
        fileType ← lift (get (fileMetadata pd) "fileType");
        fileName ← lift (get (fileMetadata pd) "fileName");
        call (onComplete (new_Blob (receivedChunks pd) fileType) fileName peerId);;
        _cleanupPeer peerId
  end.

(** [peerData.fileMetadata = metadata] *)
Definition set_fileMetadata (metadata : value) (pd : peerData) : peerData :=
  mkPeerData (pc pd) (isInitiator pd) (receivedChunks pd) (receivedBytes pd) metadata.

(** [peerData.receivedChunks.push(chunk); peerData.receivedBytes +=
    chunk.byteLength] *)
Definition push (chunk : list byte) (pd : peerData) : peerData :=
  mkPeerData (pc pd) (isInitiator pd) (receivedChunks pd ++ [chunk])
             (receivedBytes pd + len chunk) (fileMetadata pd).

(** A write through the reference the handlers captured; writing through
    [undefined] throws. *)
Definition update (captured : option nat) (f : peerData -> peerData) : M peerData :=
  w ← read;
  match captured with
  | Some r =>
      match objects w !! r with
      | Some pd => set_objects (<[r := f pd]> (objects w));; mret (f pd)
      | None => throw TypeError
      end
  | None => throw TypeError
  end.

Section Handlers.

Context `{JSON}.

(** [channel.onmessage] of the receiver branch. *)
Definition onmessage (rx : receiver) (data : message) : M unit :=
  match data with
  | Text s =>
      match JSON_parse s with
      | None => throw SyntaxError
      | Some metadata =>
          ty ← lift (get metadata "type");
          if is_str ty "metadata" then
            update (rx_peerData rx) (set_fileMetadata metadata);;
            mret tt
          else if is_str ty "end" then _assembleFile (rx_peerId rx)
          else mret tt
      end
  | Binary chunk =>
      pd ← update (rx_peerData rx) (push chunk);
      if truthy (fileMetadata pd) then
        fileSize ← lift (get (fileMetadata pd) "fileSize");
        call (onProgress (receivedBytes pd) fileSize)
      else mret tt
  end.

(** What the session negotiator answers to each call of one negotiation:
    the exception of [new RTCPeerConnection], if any, and how each awaited
    promise settles. *)
Record negotiator := mkNegotiator {
  constructs : option error;
  createOffer : error + value;
  setLocalDescription : option error;
  setRemoteDescription : option error;
  createAnswer : error + value;
  addIceCandidate : option error
}.

Definition offer_signal (offer : value) (f : File) : value :=
  VObj [("type", VStr "offer"); ("sdp", offer); ("fileName", VStr (name f));
        ("fileSize", VNum (Z.of_N (size f))); ("fileType", VStr (type f))]%string.

Definition answer_signal (answer : value) : value :=
  VObj [("type", VStr "answer"); ("sdp", answer)]%string.

Definition candidate_signal (candidate : value) : value :=
  VObj [("type", VStr "ice-candidate"); ("candidate", candidate)]%string.

(** [catch (err) { this.callbacks.onError(err) }] *)
Definition caught (m : M unit) : M unit :=
  try_catch m (fun err => call (onError err)).

(** [sendFile(targetId, file)], run without interleaving; its result is how
    the promise it returns settles. *)
Definition sendFile (n : negotiator) (targetId : string) (file : File) : M unit :=
  caught
    (p ← _getOrCreatePeerConnection (constructs n) targetId true;
     d ← createDataChannel p "fileTransfer";
     _setupDataChannel_sender p d file;;
     offer ← lift (createOffer n);
     await (setLocalDescription n);;
     _sendSignal targetId (offer_signal offer file)).

(** The metadata object built from an offer: [{ fileName: data.fileName,
    fileSize: data.fileSize, fileType: data.fileType }]. *)
Definition offer_metadata (data : value) : error + value :=
  match get data "fileName", get data "fileSize", get data "fileType" with
  | inr fileName, inr fileSize, inr fileType =>
      inr (VObj [("fileName", fileName); ("fileSize", fileSize);
                 ("fileType", fileType)]%string)
  | inl e, _, _ | _, inl e, _ | _, _, inl e => inl e
  end.

(** [const peerData = this.peers.get(from); peerData.fileMetadata = {...}] *)
Definition store_metadata (from : string) (data : value) : M unit :=
  w ← read;
  metadata ← lift (offer_metadata data);
  update (peers w !! from) (set_fileMetadata metadata);;
  mret tt.

(** [_handleSignal({ from, data })], run without interleaving. *)
Definition _handleSignal (n : negotiator) (from : string) (data : value) : M unit :=
  caught
    (ty ← lift (get data "type");
     if is_str ty "offer" then
       _getOrCreatePeerConnection (constructs n) from false;;
       store_metadata from data;;
       await (setRemoteDescription n);;
       answer ← lift (createAnswer n);
       await (setLocalDescription n);;
       _sendSignal from (answer_signal answer)
     else if is_str ty "answer" then
       w ← read;
       match peers_get w from with
       | Some _ => await (setRemoteDescription n)
       | None => mret tt
       end
     else if is_str ty "ice-candidate" then
       w ← read;
       match peers_get w from with
       | Some _ => await (addIceCandidate n)
       | None => mret tt
       end
     else mret tt).

Fixpoint forEach {A} (f : A -> M unit) (l : list A) : M unit :=
  match l with
  | [] => mret tt
  | x :: rest => f x;; forEach f rest
  end.

(** [destroy()]: the order in which the entries are visited does not
    matter, the clean-ups of distinct peers commute. *)
Definition destroy : M unit :=
  w ← read;
  forEach _cleanupPeer (map fst (map_to_list (peers w)));;
  set_listening false.

(** [pc.onicecandidate] *)
Definition onicecandidate (peerId : string) (candidate : value) : M unit :=
  if truthy candidate then _sendSignal peerId (candidate_signal candidate)
  else mret tt.

(** [pc.onconnectionstatechange], with [pc.connectionState] as [state]. *)
Definition onconnectionstatechange (peerId : string) (state : string) : M unit :=
  call (onConnectionStateChange peerId state);;
  if (String.eqb state "disconnected" || String.eqb state "failed"
      || String.eqb state "closed")%string
  then _cleanupPeer peerId
  else mret tt.

(** ** Tasks

    The instance changes one task at a time: a call from outside, an event
    of a connection or a channel, or an async function resuming after an
    [await].  A resumed function carries what its closure holds.  The calls
    into the negotiator ([createOffer], [setLocalDescription],
    [setRemoteDescription], [createAnswer], [addIceCandidate]) change nothing
    here; a resumption that only learns how such a call settled is
    [settled], and it reports a rejection through the [catch]. *)
Inductive event : Type :=
| sendFile_called (targetId : string) (ctor : option error)
| sendFile_connected (p : nat) (file : File)
| sendFile_described (targetId : string) (file : File) (offer : value)
                     (outcome : option error)
| signal_received (from : string) (data : value) (ctor : option error)
| offer_connected (from : string) (data : value)
| offer_described (from : string) (answer : value) (outcome : option error)
| settled (outcome : option error)
| icecandidate (p : nat) (candidate : value)
| connectionstatechange (p : nat) (state : string)
| datachannel (p : nat)
| channel_message (rx : nat) (data : message)
| channel_error (e : error)
| destroy_called.

Definition task (ev : event) : M unit :=
  w ← read;
  match ev with
  | sendFile_called targetId ctor =>
      caught (_getOrCreatePeerConnection ctor targetId true;; mret tt)
  | sendFile_connected p file =>
      caught (d ← createDataChannel p "fileTransfer";
              _setupDataChannel_sender p d file)
  | sendFile_described targetId file offer outcome =>
      caught (await outcome;; _sendSignal targetId (offer_signal offer file))
  | signal_received from data ctor =>
      if listening w then
        caught (ty ← lift (get data "type");
                if is_str ty "offer" then
                  _getOrCreatePeerConnection ctor from false;; mret tt
                else mret tt)
      else mret tt
  | offer_connected from data => caught (store_metadata from data)
  | offer_described from answer outcome =>
      caught (await outcome;; _sendSignal from (answer_signal answer))
  | settled outcome => caught (await outcome)
  | icecandidate p candidate =>
      match connections w !! p with
      | Some c => onicecandidate (owner c) candidate
      | None => mret tt
      end
  | connectionstatechange p state =>
      match connections w !! p with
      | Some c => onconnectionstatechange (owner c) state
      | None => mret tt
      end
  | datachannel p =>
      match connections w !! p with
      | Some c => _setupDataChannel_receiver (owner c)
      | None => mret tt
      end
  | channel_message rx data =>
      match receivers w !! rx with
      | Some r => onmessage r data
      | None => mret tt
      end
  | channel_error e => call (onError e)
  | destroy_called => destroy
  end.

Definition handle (w : P2PFileTransfer) (ev : event) : P2PFileTransfer :=
  snd (task ev w).

(** The instance after a run of tasks, from a given one. *)
Definition after (evs : list event) (w : P2PFileTransfer) : P2PFileTransfer :=
  foldl handle w evs.

End Handlers.

End Coordinator.

Import Sender Coordinator.

(** ** Sessions and what a computation may change *)

(** A session of peer [P] is a connection made for [P] and not yet closed;
    it is registered when [this.peers] leads to it. *)
Definition live (w : P2PFileTransfer) (p : nat) (P : string) : Prop :=
  exists c, connections w !! p = Some c /\ owner c = P /\ closed c = false.

Definition registered (w : P2PFileTransfer) (p : nat) (P : string) : Prop :=
  exists r pd, peers w !! P = Some r /\ objects w !! r = Some pd /\ pc pd = p.

(** The registry and the live sessions agree. *)
Record consistent (w : P2PFileTransfer) : Prop := mkConsistent {
  registered_live : forall P r, peers w !! P = Some r ->
    exists pd, objects w !! r = Some pd /\ live w (pc pd) P;
  live_registered : forall p P, live w p P -> registered w p P
}.

(** Sum of the [byteLength]s of the received buffers. *)
Definition total_byteLength (chunks : list (list byte)) : N :=
  foldr (fun b acc => len b + acc) 0 chunks.

(** [m] takes every state to one related to it by [R]. *)
Definition respects {A} (R : relation P2PFileTransfer) (m : M A) : Prop :=
  forall w, R w (snd (m w)).

(** [I] is kept. *)
Definition keeps (I : P2PFileTransfer -> Prop) : relation P2PFileTransfer :=
  fun w w' => I w -> I w'.

(** The objects change along [Q]. *)
Definition objects_rel (Q : relation (list peerData)) : relation P2PFileTransfer :=
  fun w w' => Q (objects w) (objects w').

(** Every object stays where it is and changes along [P] only. *)
Definition along (P : relation peerData) : relation (list peerData) :=
  fun os os' => forall r pd, os !! r = Some pd ->
    exists pd', os' !! r = Some pd' /\ P pd pd'.

(** Every object satisfies [I] afterwards if every object did before. *)
Definition keeping (I : peerData -> Prop) : relation (list peerData) :=
  fun os os' => Forall I os -> Forall I os'.

(** The tasks that assign [fileMetadata]. *)
Definition writes_metadata (ev : event) : Prop :=
  match ev with
  | channel_message _ (Text _) | offer_connected _ _ => True
  | _ => False
  end.

(** [receivedBytes] does not decrease; [fileMetadata] stays as it is. *)
Definition grows (pd pd' : peerData) : Prop := receivedBytes pd <= receivedBytes pd'.

Definition same_metadata (pd pd' : peerData) : Prop :=
  fileMetadata pd' = fileMetadata pd.

(** [receivedBytes] is the sum of the lengths of [receivedChunks]. *)
Definition counted (pd : peerData) : Prop :=
  receivedBytes pd = total_byteLength (receivedChunks pd).

(** The two malformed frames: a text that [JSON.parse] rejects, and an end
    frame while the registry has no metadata for the channel's peer (no
    entry, or an entry whose [fileMetadata] is still falsy). *)
Definition unparseable `{JSON} (s : string) : Prop := JSON_parse s = None.

Definition premature_end `{JSON} (w : P2PFileTransfer) (rx : receiver)
    (s : string) : Prop :=
  exists v, JSON_parse s = Some v
    /\ get v "type" = inr (VStr "end")
    /\ forall r pd, peers_get w (rx_peerId rx) = Some (r, pd) ->
                    truthy (fileMetadata pd) = false.

(** An invocation of [sendFile] in which the construction of the session
    fails (no session yet and [new RTCPeerConnection] throws [e]) or the
    creation of the offer fails ([createOffer] rejects with [e], on a new
    session or on a registered, open one). *)
Inductive sendFile_fails (n : negotiator) (P : string) (w : P2PFileTransfer)
    (e : error) : Prop :=
| construction_fails :
    peers w !! P = None -> constructs n = Some e -> sendFile_fails n P w e
| offer_fails_new :
    peers w !! P = None -> constructs n = None -> createOffer n = inl e ->
    sendFile_fails n P w e
| offer_fails_existing r pd c :
    peers w !! P = Some r -> objects w !! r = Some pd ->
    connections w !! pc pd = Some c -> closed c = false ->
    createOffer n = inl e ->
    sendFile_fails n P w e.

(** ** The sender's stream and the life of a session *)

(** The progress reports a sender owes for [chunks], sent in this order
    after [done] bytes: one per chunk, with the bytes sent so far and the
    size of the file. *)
Fixpoint progress_after (total : N) (done : N) (chunks : list (list byte)) : list effect :=
  match chunks with
  | [] => []
  | b :: rest =>
      onProgress (done + len b) (VNum (Z.of_N total))
      :: progress_after total (done + len b) rest
  end.

(** The sender of [f] on a channel that was fresh when [_sendFileInChunks]
    was called: it has sent the metadata frame, then [chunks], then the end
    frame if [fin]; the chunks are the first [offset] bytes of the file; a
    pending read holds the slice at [offset]. *)
Record streaming `{JSON} (C : N) (f : File) (s : sender)
    (chunks : list (list byte)) (fin : bool) : Prop := mkStreaming {
  streaming_file : file s = f;
  streaming_sent :
    sent (channel s)
    = Text (JSON_stringify (metadata_frame f))
      :: (Binary <$> chunks)
      ++ (if fin then [Text (JSON_stringify end_frame)] else []);
  streaming_offset : offset s = len (concat chunks);
  streaming_prefix : concat chunks = take (N.to_nat (offset s)) (bytes f);
  streaming_chunks : Forall (fun b => len b <= C) chunks;
  streaming_calls : calls s = progress_after (size f) 0 chunks;
  streaming_next :
    match next s with
    | reading result => result = slice f (offset s) (offset s + C) /\ fin = false
    | timeout _ => fin = false
    | idle => fin = true -> offset s = size f
    end
}.

(** The instance after one more callback or signal, and nothing else. *)
Definition reported (w : P2PFileTransfer) (e : effect) : P2PFileTransfer :=
  mkTransfer (peers w) (objects w) (connections w) (receivers w) (log w ++ [e])
             (listening w).

(** What [_handleSignal] stores for an offer with these fields. *)
Definition offered_metadata (fields : list (string * value)) : value :=
  VObj [("fileName", field "fileName" fields); ("fileSize", field "fileSize" fields);
        ("fileType", field "fileType" fields)]%string.

(** A [peerData] object later on: the same connection and role, and the
    chunks it had, followed by the ones received since. *)
Definition extends (pd pd' : peerData) : Prop :=
  pc pd' = pc pd /\ isInitiator pd' = isInitiator pd
  /\ receivedChunks pd `prefix_of` receivedChunks pd'.

(** A connection later on: made for the same peer, still closed if it was
    closed, with no data channel fewer. *)
Definition ages (c c' : RTCPeerConnection) : Prop :=
  owner c' = owner c
  /\ (closed c = true -> closed c' = true)
  /\ (length (dataChannels c) <= length (dataChannels c'))%nat.

Definition connections_age (w w' : P2PFileTransfer) : Prop :=
  forall p c, connections w !! p = Some c ->
    exists c', connections w' !! p = Some c' /\ ages c c'.

(** The three signals of the protocol: an offer, an answer, or a candidate
    that is not falsy. *)
Definition wellformed_signal (e : effect) : Prop :=
  match e with
  | emit _ data =>
      get data "type" = inr (VStr "offer")
      \/ get data "type" = inr (VStr "answer")
      \/ (get data "type" = inr (VStr "ice-candidate")
          /\ exists candidate, get data "candidate" = inr candidate
                               /\ truthy candidate = true)
  | _ => True
  end.

Definition wellformed_log (w : P2PFileTransfer) : Prop :=
  Forall wellformed_signal (log w).

(** ** Stand-ins for the examples *)

(** A negotiator that succeeds at everything, and one whose [createOffer]
    rejects. *)
Definition willing : negotiator :=
  mkNegotiator None (inr (VStr "sdp")) None None (inr (VStr "sdp")) None.

Definition offer_refused : negotiator :=
  mkNegotiator None (inl (OtherError "createOffer failed")) None None
               (inr (VStr "sdp")) None.


(** An empty file, a five-byte file and a file of twelve full chunks. *)
Definition empty_file : File := mkFile "empty.txt" "text/plain" [].

Definition small_file : File :=
  mkFile "small.bin" "application/octet-stream" [x01; x02; x03; x04; x05].

Definition large_file : File :=
  mkFile "large.bin" "application/octet-stream"
         (repeat x00 (N.to_nat (12 * default_chunkSize))).

(** A stand-in for the host's JSON on the control frames of one file:
    enough to run the examples, the theorems hold for every instance. *)
Definition demo_stringify (v : value) : string :=
  match get v "type" with
  | inr ty => if is_str ty "end" then "end"%string else "metadata"%string
  | inl _ => "null"%string
  end.

Definition demo_parse (f : File) (s : string) : option value :=
  if String.eqb s "end" then Some end_frame
  else if String.eqb s "metadata" then Some (metadata_frame f)
  else None.

Definition demo_JSON (f : File) : JSON := Build_JSON demo_stringify (demo_parse f).

(** The receiving side once the offer for [f] from [peerId] is stored and
    the data channel has arrived. *)
Definition receiver_ready `{JSON} (peerId : string) (f : File) : P2PFileTransfer :=
  after [signal_received peerId (offer_signal VNull f) None;
         offer_connected peerId (offer_signal VNull f);
         datachannel 0] constructor.

(** * Properties *)


(** ** The chunk loop *)

Ltac case_ltb :=
  repeat match goal with
         | |- context [?a <? ?b] => destruct (N.ltb_spec a b)
         end.

Section SenderFacts.

Context `{JSON}.
Variable chunkSize : N.

Lemma length_slice f start :
  len (slice f start (start + chunkSize)) = N.min chunkSize (size f - start).
Proof.
  unfold slice, len, size, len. rewrite length_take, length_drop. lia.
Qed.

Lemma slice_whole f start :
  size f <= start + len (slice f start (start + chunkSize)) ->
  slice f start (start + chunkSize) = drop (N.to_nat start) (bytes f).
Proof.
  rewrite length_slice. unfold slice, size, len. intros Hle.
  apply take_ge. rewrite length_drop. lia.
Qed.

Lemma slice_drop f start :
  drop (N.to_nat start) (bytes f)
  = slice f start (start + chunkSize)
    ++ drop (N.to_nat (start + len (slice f start (start + chunkSize)))) (bytes f).
Proof.
  rewrite length_slice. unfold slice, size, len.
  replace (start + chunkSize - start) with chunkSize by lia.
  rewrite <- (take_drop (N.to_nat chunkSize) (drop (N.to_nat start) (bytes f))) at 1.
  f_equal. rewrite drop_drop.
  destruct (decide (chunkSize <= N.of_nat (length (bytes f)) - start)) as [Hle|Hgt].
  - f_equal. lia.
  - rewrite !drop_ge; [done | lia | lia].
Qed.

Lemma run_idle ts s : next s = idle -> run chunkSize ts s = s.
Proof.
  revert s. induction ts as [|t ts IH]; intros s Hs; [done|].
  simpl. unfold step. rewrite Hs. by apply IH.
Qed.

Lemma run_app ts1 ts2 s :
  run chunkSize (ts1 ++ ts2) s = run chunkSize ts2 (run chunkSize ts1 s).
Proof. revert s. induction ts1 as [|t ts1 IH]; intros s; [done|]. simpl. apply IH. Qed.

(** The three outcomes of [onload] on an open channel, and the timer. *)
Lemma step_last t s result :
  next s = reading result -> state t = open ->
  size (file s) <= offset s + len result ->
  step chunkSize t s
  = mkSender (file s) (offset s + len result)
      (send (Text (JSON_stringify end_frame))
            (send (Binary result) (observe t (channel s))))
      (calls s ++ [onProgress (offset s + len result) (VNum (Z.of_N (size (file s))))])
      idle.
Proof.
  intros Hnext Ht Hge. unfold step. rewrite Hnext. unfold reader_onload. simpl.
  rewrite decide_True by done.
  simpl in *. case_ltb; (done || lia).
Qed.

Lemma step_wait t s result :
  next s = reading result -> state t = open ->
  offset s + len result < size (file s) ->
  chunkSize * 10 < bufferedAmount (observe t (channel s)) + len result ->
  step chunkSize t s
  = mkSender (file s) (offset s + len result)
      (send (Binary result) (observe t (channel s)))
      (calls s ++ [onProgress (offset s + len result) (VNum (Z.of_N (size (file s))))])
      (timeout 100).
Proof.
  intros Hnext Ht Hlt Hbuf. unfold step. rewrite Hnext. unfold reader_onload. simpl.
  rewrite decide_True by done.
  simpl in *. case_ltb; (done || lia).
Qed.

Lemma step_more t s result :
  next s = reading result -> state t = open ->
  offset s + len result < size (file s) ->
  bufferedAmount (observe t (channel s)) + len result <= chunkSize * 10 ->
  step chunkSize t s
  = readSlice chunkSize
      (mkSender (file s) (offset s + len result)
         (send (Binary result) (observe t (channel s)))
         (calls s ++ [onProgress (offset s + len result) (VNum (Z.of_N (size (file s))))])
         idle).
Proof.
  intros Hnext Ht Hlt Hbuf. unfold step. rewrite Hnext. unfold reader_onload. simpl.
  rewrite decide_True by done.
  simpl in *. case_ltb; (done || lia).
Qed.

Lemma step_timeout t s ms :
  next s = timeout ms ->
  step chunkSize t s
  = readSlice chunkSize
      (mkSender (file s) (offset s) (observe t (channel s)) (calls s) (timeout ms)).
Proof. intros Hnext. unfold step. by rewrite Hnext. Qed.

(** From a pending read to the end of the transfer, on a channel that stays
    open: the loop stops after sending the rest of the file in full chunks,
    one last chunk and the end frame. *)
Lemma run_reading (m : nat) :
  0 < chunkSize ->
  forall ts s,
    next s = reading (slice (file s) (offset s) (offset s + chunkSize)) ->
    (N.to_nat (size (file s) - offset s) <= m)%nat ->
    (2 * m + 1 <= length ts)%nat ->
    Forall (fun t => state t = open) ts ->
    exists chunks last,
      next (run chunkSize ts s) = idle
      /\ sent (channel (run chunkSize ts s))
         = sent (channel s) ++ (Binary <$> chunks ++ [last])
           ++ [Text (JSON_stringify end_frame)]
      /\ Forall (fun b => len b = chunkSize) chunks
      /\ len last <= chunkSize
      /\ concat (chunks ++ [last]) = drop (N.to_nat (offset s)) (bytes (file s)).
Proof.
  intros HC. induction m as [|m IH]; intros ts s Hnext Hm Hts Hopen;
    (destruct ts as [|t ts]; [simpl in Hts; lia|]);
    apply Forall_cons in Hopen as [Ht Hopen];
    change (run chunkSize (t :: ts) s) with (run chunkSize ts (step chunkSize t s));
    pose proof (length_slice (file s) (offset s)) as Hlen;
    set (result := slice (file s) (offset s) (offset s + chunkSize)) in *;
    (destruct (decide (offset s + len result < size (file s))) as [Hlt|Hge];
      [|rewrite (step_last t s result) by (done || lia);
        rewrite run_idle by done; simpl;
        exists [], result;
        split_and!; [done|by rewrite <- app_assoc|done|lia|];
        simpl; rewrite app_nil_r; apply slice_whole; fold result; lia]).
  - lia.
  - assert (Hfull : len result = chunkSize) by lia.
    assert (Hstep : exists s1,
      (run chunkSize ts (step chunkSize t s) = run chunkSize ts s1
       \/ exists t' ts', ts = t' :: ts' /\ Forall (fun t => state t = open) ts'
            /\ run chunkSize ts (step chunkSize t s) = run chunkSize ts' s1
            /\ (2 * m + 1 <= length ts')%nat)
      /\ next s1 = reading (slice (file s1) (offset s1) (offset s1 + chunkSize))
      /\ file s1 = file s /\ offset s1 = offset s + len result
      /\ sent (channel s1) = sent (channel s) ++ [Binary result]).
    { destruct (decide (chunkSize * 10
                < bufferedAmount (observe t (channel s)) + len result)) as [Hbuf|Hbuf].
      - rewrite (step_wait t s result) by done.
        destruct ts as [|t' ts']; [simpl in Hts; lia|].
        apply Forall_cons in Hopen as [Ht' Hopen'].
        eexists. split; [right; exists t', ts'; split_and!; [done|done| |simpl in Hts; lia]|].
        + change (run chunkSize (t' :: ts') ?x) with (run chunkSize ts' (step chunkSize t' x)).
          rewrite (step_timeout t' _ 100) by done. reflexivity.
        + done.
      - rewrite (step_more t s result) by (done || lia).
        eexists. split; [left; reflexivity|done]. }
    destruct Hstep as (s1 & Hrun & Hnext1 & Hfile1 & Hoff1 & Hsent1).
    assert (Hrest : exists ts', run chunkSize ts (step chunkSize t s) = run chunkSize ts' s1
              /\ (2 * m + 1 <= length ts')%nat
              /\ Forall (fun t => state t = open) ts').
    { destruct Hrun as [Hrun|(t' & ts' & -> & Hopen' & Hrun & Hlen')].
      - exists ts. split_and!; [done|simpl in Hts; lia|done].
      - by exists ts'. }
    destruct Hrest as (ts' & -> & Hlen' & Hopen').
    destruct (IH ts' s1) as (chunks & last & Hidle & Hsent & Hall & Hlast & Hcat);
      [done|rewrite Hfile1, Hoff1; lia|done|done|].
    exists (result :: chunks), last.
    split_and!; [done| |by constructor|done|].
    + rewrite Hsent, Hsent1. simpl. by rewrite <- !app_assoc.
    + simpl. rewrite Hcat, Hfile1, Hoff1. symmetry. apply slice_drop.
Qed.

Lemma sendFileInChunks_open c f :
  ready c = open ->
  _sendFileInChunks chunkSize c f
  = mkSender f 0 (send (Text (JSON_stringify (metadata_frame f))) c) []
             (reading (slice f 0 (0 + chunkSize))).
Proof. intros Hc. unfold _sendFileInChunks. by rewrite decide_True. Qed.

(** The whole transfer on a channel that stays open. *)
Lemma run_transfer c f ts :
  ready c = open ->
  0 < chunkSize ->
  Forall (fun t => state t = open) ts ->
  (2 * length (bytes f) + 1 <= length ts)%nat ->
  exists chunks last,
    next (run chunkSize ts (_sendFileInChunks chunkSize c f)) = idle
    /\ sent (channel (run chunkSize ts (_sendFileInChunks chunkSize c f)))
       = sent c ++ Text (JSON_stringify (metadata_frame f))
                :: (Binary <$> chunks ++ [last]) ++ [Text (JSON_stringify end_frame)]
    /\ Forall (fun b => len b = chunkSize) chunks
    /\ len last <= chunkSize
    /\ concat (chunks ++ [last]) = bytes f.
Proof.
  intros Hc HC Hopen Hts. rewrite (sendFileInChunks_open c f Hc).
  match goal with |- context [run chunkSize ts ?s0] =>
    destruct (run_reading (length (bytes f)) HC ts s0)
      as (chunks & last & Hidle & Hsent & Hall & Hlast & Hcat)
  end; [done|simpl; unfold size, len; lia|lia|done|].
  exists chunks, last. split_and!; [done| |done|done|done].
  rewrite Hsent. simpl. by rewrite <- app_assoc.
Qed.

Lemma bytes_sent_app ms1 ms2 :
  bytes_sent (ms1 ++ ms2) = bytes_sent ms1 + bytes_sent ms2.
Proof. induction ms1 as [|m ms1 IH]; simpl; [done|]. rewrite IH. lia. Qed.

Lemma bytes_sent_binary bs : bytes_sent (Binary <$> bs) = len (concat bs).
Proof.
  induction bs as [|b bs IH]; csimpl; [done|].
  rewrite IH. unfold len. rewrite length_app. lia.
Qed.

(** With a receiver that takes nothing off the queue, [bufferedAmount]
    grows by exactly what is sent. *)
Lemma step_frozen t s :
  drained t = 0 ->
  bufferedAmount (channel (step chunkSize t s)) + bytes_sent (sent (channel s))
  = bufferedAmount (channel s) + bytes_sent (sent (channel (step chunkSize t s))).
Proof.
  intros Ht. unfold step, reader_onload, readSlice.
  destruct (next s); simpl; rewrite ?Ht; [|lia|lia].
  case_decide; simpl; [|lia].
  case_ltb; simpl; rewrite ?bytes_sent_app; simpl; lia.
Qed.

Lemma run_frozen ts s :
  Forall (fun t => drained t = 0) ts ->
  bufferedAmount (channel (run chunkSize ts s)) + bytes_sent (sent (channel s))
  = bufferedAmount (channel s) + bytes_sent (sent (channel (run chunkSize ts s))).
Proof.
  intros Hts. revert s. induction Hts as [|t ts Ht _ IH]; intros s; [done|].
  simpl. specialize (IH (step chunkSize t s)).
  pose proof (step_frozen t s Ht). lia.
Qed.

End SenderFacts.

(** ** Reasoning about computations of the coordinator *)

Section Respects.

Variable R : relation P2PFileTransfer.
Context `{!PreOrder R}.

Lemma respects_ret {A} (a : A) : respects R (mret a).
Proof. intros w. simpl. reflexivity. Qed.

Lemma respects_throw {A} e : respects R (@throw A e).
Proof. intros w. simpl. reflexivity. Qed.

Lemma respects_read : respects R read.
Proof. intros w. simpl. reflexivity. Qed.

Lemma respects_lift {A} (r : error + A) : respects R (lift r).
Proof. destruct r; [apply respects_throw|apply respects_ret]. Qed.

Lemma respects_await o : respects R (await o).
Proof. destruct o; [apply respects_throw|apply respects_ret]. Qed.

Lemma respects_bind {A B} (m : M A) (f : A -> M B) :
  respects R m -> (forall a, respects R (f a)) -> respects R (m ≫= f).
Proof.
  intros Hm Hf w. unfold mbind, M_bind. specialize (Hm w).
  destruct (m w) as [[e|a] w']; simpl in *; [done|].
  etransitivity; [exact Hm|apply Hf].
Qed.

Lemma respects_try_catch {A} (m : M A) (h : error -> M A) :
  respects R m -> (forall e, respects R (h e)) -> respects R (try_catch m h).
Proof.
  intros Hm Hh w. unfold try_catch. specialize (Hm w).
  destruct (m w) as [[e|a] w']; simpl in *; [|done].
  etransitivity; [exact Hm|apply Hh].
Qed.

Lemma respects_forEach {A} (f : A -> M unit) (l : list A) :
  (forall a, respects R (f a)) -> respects R (forEach f l).
Proof.
  intros Hf. induction l as [|a l IH]; simpl; [apply respects_ret|].
  apply respects_bind; [apply Hf|intros _; apply IH].
Qed.

End Respects.

#[local] Instance keeps_preorder I : PreOrder (keeps I).
Proof. split; unfold keeps; [intros w; tauto|intros w1 w2 w3; tauto]. Qed.

#[local] Instance objects_rel_preorder Q `{!PreOrder Q} : PreOrder (objects_rel Q).
Proof.
  split.
  - intros w. unfold objects_rel. reflexivity.
  - intros w1 w2 w3. unfold objects_rel. intros ??. by etransitivity.
Qed.

#[local] Instance along_preorder P `{!PreOrder P} : PreOrder (along P).
Proof.
  split.
  - intros os r pd Hr. by exists pd.
  - intros os1 os2 os3 H12 H23 r pd Hr.
    destruct (H12 r pd Hr) as (pd2 & Hr2 & HQ2).
    destruct (H23 r pd2 Hr2) as (pd3 & Hr3 & HQ3).
    exists pd3. split; [done|by etransitivity].
Qed.

#[local] Instance keeping_preorder I : PreOrder (keeping I).
Proof. split; unfold keeping; [intros os; tauto|intros os1 os2 os3; tauto]. Qed.

(** ** The state after each primitive *)

Lemma cleanupPeer_state peerId w :
  snd (_cleanupPeer peerId w)
  = match peers_get w peerId with
    | Some (_, pd) =>
        mkTransfer (delete peerId (peers w)) (objects w)
                   (alter close (pc pd) (connections w))
                   (receivers w) (log w) (listening w)
    | None => w
    end.
Proof.
  unfold _cleanupPeer, mbind, M_bind, read.
  by destruct (peers_get w peerId) as [[r pd]|].
Qed.

Lemma getOrCreate_state ctor peerId isInitiator w :
  _getOrCreatePeerConnection ctor peerId isInitiator w
  = match peers w !! peerId with
    | Some r =>
        match objects w !! r with
        | Some pd => (inr (pc pd), w)
        | None => (inl TypeError, w)
        end
    | None =>
        match ctor with
        | Some e => (inl e, w)
        | None =>
            (inr (length (connections w)),
             mkTransfer (<[peerId := length (objects w)]> (peers w))
               (objects w ++ [mkPeerData (length (connections w)) isInitiator [] 0 VNull])
               (connections w ++ [mkPc peerId false []])
               (receivers w) (log w) (listening w))
        end
    end.
Proof.
  unfold _getOrCreatePeerConnection, mbind, M_bind, read.
  destruct (peers w !! peerId) as [r|]; [by destruct (objects w !! r)|].
  by destruct ctor.
Qed.

Lemma createDataChannel_state p l w :
  createDataChannel p l w
  = match connections w !! p with
    | Some c =>
        if closed c then (inl InvalidStateError, w)
        else (inr (length (dataChannels c)),
              mkTransfer (peers w) (objects w)
                (<[p := mkPc (owner c) false (dataChannels c ++ [mkLocal l None])]>
                   (connections w))
                (receivers w) (log w) (listening w))
    | None => (inl TypeError, w)
    end.
Proof.
  unfold createDataChannel, mbind, M_bind, read.
  destruct (connections w !! p) as [c|]; [|done]. by destruct (closed c).
Qed.

Lemma setupDataChannel_sender_state p d f w :
  _setupDataChannel_sender p d f w
  = match connections w !! p with
    | Some c =>
        (inr tt,
         mkTransfer (peers w) (objects w)
           (<[p := mkPc (owner c) (closed c)
                     (alter (fun ch => mkLocal (label ch) (Some f)) d (dataChannels c))]>
              (connections w))
           (receivers w) (log w) (listening w))
    | None => (inr tt, w)
    end.
Proof.
  unfold _setupDataChannel_sender, mbind, M_bind, read.
  by destruct (connections w !! p).
Qed.

Lemma update_state captured f w :
  update captured f w
  = match captured ≫= (objects w !!.) with
    | Some pd =>
        (inr (f pd),
         mkTransfer (peers w) (<[default 0%nat captured := f pd]> (objects w))
                    (connections w) (receivers w) (log w) (listening w))
    | None => (inl TypeError, w)
    end.
Proof.
  unfold update, mbind at 1, M_bind, read.
  destruct captured as [r|]; simpl; [|done]. by destruct (objects w !! r).
Qed.

(** ** The registry and the live sessions stay in agreement *)

Lemma consistent_call e : respects (keeps consistent) (call e).
Proof. intros w [H1 H2]. by split. Qed.

Lemma consistent_set_receivers rs : respects (keeps consistent) (set_receivers rs).
Proof. intros w [H1 H2]. by split. Qed.

Lemma consistent_set_listening b : respects (keeps consistent) (set_listening b).
Proof. intros w [H1 H2]. by split. Qed.

Lemma consistent_cleanupPeer peerId : respects (keeps consistent) (_cleanupPeer peerId).
Proof.
  intros w Hw. rewrite cleanupPeer_state.
  destruct (peers_get w peerId) as [[r pd]|] eqn:Hget; [|done].
  unfold peers_get in Hget.
  destruct (peers w !! peerId) as [r0|] eqn:Hr; simpl in Hget; [|done].
  destruct (objects w !! r0) as [pd0|] eqn:Hpd; simplify_eq/=.
  destruct Hw as [Hreg Hlive].
  destruct (Hreg _ _ Hr) as (pd' & Hpd' & c & Hc & Hown & Hopen). simplify_eq.
  split; unfold live, registered; simpl.
  - intros P r'. rewrite lookup_delete_Some. intros [Hne Hr'].
    destruct (Hreg _ _ Hr') as (pd' & Hpd' & c' & Hc' & Hown' & Hopen').
    exists pd'. split; [done|]. exists c'. split; [|done].
    rewrite list_lookup_alter_ne; [done|]. intros Heq. rewrite Heq in Hc. congruence.
  - intros p P (c' & Hc' & Hown' & Hopen').
    destruct (decide (pc pd = p)) as [<-|Hne].
    + rewrite list_lookup_alter_eq, Hc in Hc'. by simplify_eq/=.
    + rewrite list_lookup_alter_ne in Hc' by done.
      destruct (Hlive p P) as (r' & pd' & Hr' & Hpd' & Hpc'); [by exists c'|].
      exists r', pd'. split; [|done].
      rewrite lookup_delete_ne; [done|]. intros <-. by simplify_eq.
Qed.

Lemma consistent_getOrCreate ctor peerId isInitiator :
  respects (keeps consistent) (_getOrCreatePeerConnection ctor peerId isInitiator).
Proof.
  intros w Hw. rewrite getOrCreate_state.
  destruct (peers w !! peerId) as [r|] eqn:Hr; [by destruct (objects w !! r)|].
  destruct ctor as [e|]; [done|]. simpl.
  destruct Hw as [Hreg Hlive].
  split; unfold live, registered; simpl.
  - intros P r'. rewrite lookup_insert_Some. intros [[<- <-]|[Hne Hr']].
    + eexists. split; [by apply list_lookup_middle|]. simpl.
      eexists. split; [by apply list_lookup_middle|done].
    + destruct (Hreg _ _ Hr') as (pd' & Hpd' & c' & Hc' & Hown' & Hopen').
      exists pd'. split; [by apply lookup_app_l_Some|].
      exists c'. split; [by apply lookup_app_l_Some|done].
  - intros p P (c & Hc & Hown & Hopen).
    apply lookup_app_Some in Hc as [Hc|[Hlen Hc]].
    + destruct (Hlive p P) as (r' & pd' & Hr' & Hpd' & Hpc'); [by exists c|].
      exists r', pd'. split_and!; [|by apply lookup_app_l_Some|done].
      rewrite lookup_insert_ne; [done|]. intros <-. congruence.
    + destruct (p - length (connections w))%nat as [|k] eqn:Hk; simpl in Hc; [|done].
      simplify_eq/=. eexists _, _.
      split_and!; [apply lookup_insert_eq|by apply list_lookup_middle|simpl; lia].
Qed.

(** Replacing a connection by one with the same owner and the same
    [closed] flag. *)
Lemma consistent_replace w p c c' :
  connections w !! p = Some c -> owner c' = owner c -> closed c' = closed c ->
  consistent w ->
  consistent (mkTransfer (peers w) (objects w) (<[p := c']> (connections w))
                         (receivers w) (log w) (listening w)).
Proof.
  intros Hc Hown Hcl [Hreg Hlive].
  assert (Hp : (p < length (connections w))%nat) by by eapply lookup_lt_Some.
  split; unfold live, registered; simpl.
  - intros P r Hr. destruct (Hreg _ _ Hr) as (pd & Hpd & c0 & Hc0 & Hown0 & Hopen0).
    exists pd. split; [done|].
    destruct (decide (p = pc pd)) as [->|Hne].
    + exists c'. rewrite list_lookup_insert_eq by done. simplify_eq. by rewrite Hown, Hcl.
    + exists c0. by rewrite list_lookup_insert_ne.
  - intros q P (c0 & Hc0 & Hown0 & Hopen0).
    destruct (decide (p = q)) as [->|Hne].
    + rewrite list_lookup_insert_eq in Hc0 by done. simplify_eq.
      apply Hlive. exists c. by rewrite <- Hown, <- Hcl.
    + rewrite list_lookup_insert_ne in Hc0 by done. apply Hlive. by exists c0.
Qed.

Lemma consistent_createDataChannel p l :
  respects (keeps consistent) (createDataChannel p l).
Proof.
  intros w Hw. rewrite createDataChannel_state.
  destruct (connections w !! p) as [c|] eqn:Hc; [|done].
  destruct (closed c) eqn:Hcl; [done|]. simpl.
  by apply (consistent_replace w p c).
Qed.

Lemma consistent_setupDataChannel_sender p d f :
  respects (keeps consistent) (_setupDataChannel_sender p d f).
Proof.
  intros w Hw. rewrite setupDataChannel_sender_state.
  destruct (connections w !! p) as [c|] eqn:Hc; [|done]. simpl.
  by apply (consistent_replace w p c).
Qed.

Lemma consistent_update captured f :
  (forall pd, pc (f pd) = pc pd) ->
  respects (keeps consistent) (update captured f).
Proof.
  intros Hf w Hw. rewrite update_state.
  destruct captured as [r|]; simpl; [|done].
  destruct (objects w !! r) as [pd|] eqn:Hpd; [|done]. simpl.
  assert (Hr : (r < length (objects w))%nat) by by eapply lookup_lt_Some.
  destruct Hw as [Hreg Hlive].
  split; unfold live, registered; simpl.
  - intros P r' Hr'. destruct (Hreg _ _ Hr') as (pd' & Hpd' & Hl).
    destruct (decide (r = r')) as [->|Hne].
    + exists (f pd). rewrite list_lookup_insert_eq by done. simplify_eq.
      by rewrite Hf.
    + exists pd'. by rewrite list_lookup_insert_ne.
  - intros p P Hl. destruct (Hlive p P Hl) as (r' & pd' & Hr' & Hpd' & Hpc').
    destruct (decide (r = r')) as [->|Hne].
    + exists r', (f pd). rewrite list_lookup_insert_eq by done. simplify_eq.
      by rewrite Hf.
    + exists r', pd'. by rewrite list_lookup_insert_ne.
Qed.

(** Composite computations are taken apart along their structure. *)
Ltac respects_structure :=
  first
    [ match goal with |- PreOrder _ => apply _ end
    | apply respects_ret | apply respects_throw | apply respects_read
    | apply respects_lift | apply respects_await
    | apply respects_bind | apply respects_try_catch | apply respects_forEach
    | match goal with
      | |- respects _ (match ?x with _ => _ end) => destruct x
      end ].

Ltac unfold_tasks :=
  unfold task, caught, _assembleFile, onmessage, store_metadata,
    _sendSignal, onicecandidate, onconnectionstatechange, destroy,
    _setupDataChannel_receiver, sendFile, _handleSignal.

Section Tasks.

Context `{JSON}.

Lemma consistent_task ev : respects (keeps consistent) (task ev).
Proof.
  destruct ev; unfold_tasks;
    repeat (intros; first
      [ apply consistent_call | apply consistent_set_receivers
      | apply consistent_set_listening | apply consistent_cleanupPeer
      | apply consistent_getOrCreate | apply consistent_createDataChannel
      | apply consistent_setupDataChannel_sender
      | by apply consistent_update
      | respects_structure ]).
Qed.

Lemma consistent_constructor : consistent constructor.
Proof.
  split.
  - intros P r Hr. simpl in Hr. by rewrite lookup_empty in Hr.
  - intros p P (c & Hc & _). simpl in Hc. by rewrite lookup_nil in Hc.
Qed.

Lemma consistent_after evs w : consistent w -> consistent (after evs w).
Proof.
  revert w. induction evs as [|ev evs IH]; intros w Hw; [done|].
  simpl. apply IH. by apply consistent_task.
Qed.

End Tasks.

(** ** How the tasks change the [peerData] objects *)

Section Objects.

Variable Q : relation (list peerData).
Context `{!PreOrder Q}.

Hypothesis Q_fresh : forall os p b, Q os (os ++ [mkPeerData p b [] 0 VNull]).

Lemma objects_same {A} (m : M A) :
  (forall w, objects (snd (m w)) = objects w) -> respects (objects_rel Q) m.
Proof. intros Hm w. unfold objects_rel. rewrite Hm. reflexivity. Qed.

Lemma objects_call e : respects (objects_rel Q) (call e).
Proof. by apply objects_same. Qed.

Lemma objects_set_receivers rs : respects (objects_rel Q) (set_receivers rs).
Proof. by apply objects_same. Qed.

Lemma objects_set_listening b : respects (objects_rel Q) (set_listening b).
Proof. by apply objects_same. Qed.

Lemma objects_cleanupPeer peerId : respects (objects_rel Q) (_cleanupPeer peerId).
Proof.
  apply objects_same. intros w. rewrite cleanupPeer_state.
  by destruct (peers_get w peerId) as [[r pd]|].
Qed.

Lemma objects_createDataChannel p l : respects (objects_rel Q) (createDataChannel p l).
Proof.
  apply objects_same. intros w. rewrite createDataChannel_state.
  destruct (connections w !! p) as [c|]; [|done]. by destruct (closed c).
Qed.

Lemma objects_setupDataChannel_sender p d f :
  respects (objects_rel Q) (_setupDataChannel_sender p d f).
Proof.
  apply objects_same. intros w. rewrite setupDataChannel_sender_state.
  by destruct (connections w !! p).
Qed.

Lemma objects_getOrCreate ctor peerId isInitiator :
  respects (objects_rel Q) (_getOrCreatePeerConnection ctor peerId isInitiator).
Proof using Q_fresh PreOrder0.
  intros w. unfold objects_rel. rewrite getOrCreate_state.
  destruct (peers w !! peerId) as [r|]; [by destruct (objects w !! r)|].
  destruct ctor; [done|]. apply Q_fresh.
Qed.

Lemma objects_update captured f :
  (forall os r pd, os !! r = Some pd -> Q os (<[r := f pd]> os)) ->
  respects (objects_rel Q) (update captured f).
Proof.
  intros Hf w. unfold objects_rel. rewrite update_state.
  destruct captured as [r|]; simpl; [|done].
  destruct (objects w !! r) as [pd|] eqn:Hpd; [|done]. by apply Hf.
Qed.

Context `{JSON}.

Lemma objects_task ev :
  (forall chunk os r pd, os !! r = Some pd -> Q os (<[r := push chunk pd]> os)) ->
  (writes_metadata ev ->
   forall v os r pd, os !! r = Some pd -> Q os (<[r := set_fileMetadata v pd]> os)) ->
  respects (objects_rel Q) (task ev).
Proof using Q_fresh PreOrder0.
  intros Hpush Hmeta.
  destruct ev; unfold_tasks; try specialize (Hmeta I);
    repeat (intros; first
      [ apply objects_call | apply objects_set_receivers
      | apply objects_set_listening | apply objects_cleanupPeer
      | apply objects_getOrCreate | apply objects_createDataChannel
      | apply objects_setupDataChannel_sender
      | by apply objects_update, Hpush
      | by apply objects_update, Hmeta
      | respects_structure ]).
Qed.

End Objects.

(** * The claims *)

Section SenderClaims.

Context `{JSON}.
Variable chunkSize : N.

(** C10.  When a chunk read completes and the channel's [readyState] is not
    ['open'], the sender stops for good and in silence: whatever tasks
    follow, nothing more is sent (no chunk, no end frame), no callback is
    invoked (no progress, no error) and nothing is pending. *)
Theorem closed_channel_halts_sender (s : sender) (result : list byte)
    (t : transport) (ts : list transport) :
  next s = reading result ->
  state t <> open ->
  next (run chunkSize (t :: ts) s) = idle
  /\ sent (channel (run chunkSize (t :: ts) s)) = sent (channel s)
  /\ calls (run chunkSize (t :: ts) s) = calls s
  /\ offset (run chunkSize (t :: ts) s) = offset s.
Proof.
  intros Hnext Ht.
  change (run chunkSize (t :: ts) s) with (run chunkSize ts (step chunkSize t s)).
  assert (Hstep : step chunkSize t s
            = mkSender (file s) (offset s) (observe t (channel s)) (calls s) idle).
  { unfold step. rewrite Hnext. unfold reader_onload. simpl.
    by rewrite decide_False. }
  rewrite Hstep, run_idle by done. done.
Qed.

(** C2, as the code has it.  When a read completes on an open channel the
    slice is enqueued whatever the channel has buffered; with more of the
    file left, the next read is put off by one 100 ms timer exactly when the
    buffered count then exceeds ten chunk sizes, and the timer starts that
    read without a look at the buffer.  With a receiver that takes nothing
    off the queue, the buffered count ends at the size of the whole
    transfer. *)
Theorem backpressure_delays_only (s : sender) (result : list byte)
    (t : transport) (f : File) (c : RTCDataChannel) (ts : list transport) :
  next s = reading result ->
  state t = open ->
  offset s + len result < size (file s) ->
  ready c = open ->
  0 < chunkSize ->
  Forall (fun t => drained t = 0 /\ state t = open) ts ->
  (2 * length (bytes f) + 1 <= length ts)%nat ->
  let s1 := step chunkSize t s in
  sent (channel s1) = sent (channel s) ++ [Binary result]
  /\ bufferedAmount (channel s1)
     = bufferedAmount (channel s) - drained t + len result
  /\ next s1
     = (if chunkSize * 10 <? bufferedAmount (channel s1) then timeout 100
        else reading (slice (file s) (offset s1) (offset s1 + chunkSize)))
  /\ (forall s' ms t', next s' = timeout ms ->
        next (step chunkSize t' s')
        = reading (slice (file s') (offset s') (offset s' + chunkSize))
        /\ sent (channel (step chunkSize t' s')) = sent (channel s'))
  /\ bufferedAmount (channel (run chunkSize ts (_sendFileInChunks chunkSize c f)))
     = bufferedAmount c + byteSize (Text (JSON_stringify (metadata_frame f)))
       + size f + byteSize (Text (JSON_stringify end_frame)).
Proof.
  intros Hnext Ht Hlt Hc HC Hts Hlen s1.
  assert (Hfrozen : Forall (fun t => drained t = 0) ts)
    by (eapply Forall_impl; [exact Hts|by intros ? []]).
  assert (Hopen : Forall (fun t => state t = open) ts)
    by (eapply Forall_impl; [exact Hts|by intros ? []]).
  split_and!.
  - unfold s1, step. rewrite Hnext. unfold reader_onload. simpl.
    rewrite decide_True by done. case_ltb; simpl; (done || lia).
  - unfold s1, step. rewrite Hnext. unfold reader_onload. simpl.
    rewrite decide_True by done. case_ltb; simpl; (done || lia).
  - unfold s1, step. rewrite Hnext. unfold reader_onload. simpl.
    rewrite decide_True by done.
    destruct (N.ltb_spec (offset s + len result) (size (file s))); [|lia].
    case_ltb; simpl; case_ltb; simpl in *; (done || lia).
  - intros s' ms t' Hs'. by rewrite (step_timeout chunkSize t' s' ms).
  - pose proof (run_frozen chunkSize ts (_sendFileInChunks chunkSize c f) Hfrozen) as Hb.
    destruct (run_transfer chunkSize c f ts Hc HC Hopen Hlen)
      as (chunks & last & _ & Hsent & _ & _ & Hcat).
    rewrite Hsent in Hb. rewrite (sendFileInChunks_open chunkSize c f Hc) in Hb.
    simpl in Hb.
    rewrite !bytes_sent_app in Hb. simpl in Hb.
    rewrite !bytes_sent_app, bytes_sent_binary, Hcat in Hb. simpl in *.
    rewrite (sendFileInChunks_open chunkSize c f Hc). unfold size. lia.
Qed.

End SenderClaims.

(** ** The receiver, frame by frame *)

Section Receiving.

Context `{JSON}.

Lemma after_app evs1 evs2 w : after (evs1 ++ evs2) w = after evs2 (after evs1 w).
Proof. apply foldl_app. Qed.

Lemma truthy_get v k : truthy v = true -> exists x, get v k = inr x.
Proof. destruct v; simpl; try done; by eexists. Qed.

Lemma handle_binary w i r P pd chunk total :
  receivers w !! i = Some (mkReceiver (Some r) P) ->
  objects w !! r = Some pd ->
  truthy (fileMetadata pd) = true ->
  get (fileMetadata pd) "fileSize" = inr total ->
  handle w (channel_message i (Binary chunk))
  = mkTransfer (peers w) (<[r := push chunk pd]> (objects w)) (connections w)
               (receivers w)
               (log w ++ [onProgress (receivedBytes pd + len chunk) total])
               (listening w).
Proof.
  intros Hi Hr Hmeta Htotal. unfold handle, task. unfold mbind at 1, M_bind, read.
  rewrite Hi. unfold onmessage. unfold mbind at 1, M_bind.
  rewrite update_state. simpl. rewrite Hr. simpl. rewrite Hmeta, Htotal.
  reflexivity.
Qed.

Lemma handle_metadata w i r P pd s v :
  receivers w !! i = Some (mkReceiver (Some r) P) ->
  objects w !! r = Some pd ->
  JSON_parse s = Some v ->
  get v "type" = inr (VStr "metadata") ->
  handle w (channel_message i (Text s))
  = mkTransfer (peers w) (<[r := set_fileMetadata v pd]> (objects w))
               (connections w) (receivers w) (log w) (listening w).
Proof.
  intros Hi Hr Hs Hty. unfold handle, task. unfold mbind at 1, M_bind, read.
  rewrite Hi. unfold onmessage. rewrite Hs, Hty.
  cbv [lift mbind M_bind mret M_ret]. simpl.
  rewrite update_state. simpl. by rewrite Hr.
Qed.

Lemma handle_end w i rx r pd s v fileType fileName :
  receivers w !! i = Some rx ->
  peers w !! rx_peerId rx = Some r ->
  objects w !! r = Some pd ->
  JSON_parse s = Some v ->
  get v "type" = inr (VStr "end") ->
  truthy (fileMetadata pd) = true ->
  get (fileMetadata pd) "fileType" = inr fileType ->
  get (fileMetadata pd) "fileName" = inr fileName ->
  handle w (channel_message i (Text s))
  = mkTransfer (delete (rx_peerId rx) (peers w)) (objects w)
      (alter close (pc pd) (connections w)) (receivers w)
      (log w ++ [onComplete (new_Blob (receivedChunks pd) fileType) fileName
                            (rx_peerId rx)])
      (listening w).
Proof.
  intros Hi HP Hr Hs Hty Hmeta HfT HfN.
  unfold handle, task. unfold mbind at 1, M_bind, read.
  rewrite Hi. unfold onmessage. rewrite Hs, Hty.
  cbv [lift mbind M_bind mret M_ret]. simpl.
  unfold _assembleFile. cbv [mbind M_bind read].
  unfold peers_get at 1. rewrite HP. simpl. rewrite Hr. simpl.
  rewrite Hmeta, HfT, HfN. simpl.
  cbv [lift mbind M_bind mret M_ret call]. simpl. rewrite cleanupPeer_state.
  unfold peers_get. simpl. rewrite HP. simpl. by rewrite Hr.
Qed.

(** A run of binary chunks on a session whose metadata is known. *)
Lemma receive_chunks bs : forall w i r P pd,
  receivers w !! i = Some (mkReceiver (Some r) P) ->
  objects w !! r = Some pd ->
  truthy (fileMetadata pd) = true ->
  exists progress,
    let w' := after (channel_message i <$> (Binary <$> bs)) w in
    peers w' = peers w /\ receivers w' = receivers w
    /\ connections w' = connections w
    /\ objects w' !! r
       = Some (mkPeerData (pc pd) (isInitiator pd) (receivedChunks pd ++ bs)
                          (receivedBytes pd + len (concat bs)) (fileMetadata pd))
    /\ log w' = log w ++ progress
    /\ Forall (fun e => exists done total, e = onProgress done total) progress.
Proof.
  induction bs as [|b bs IH]; intros w i r P pd Hi Hr Hmeta.
  - exists []. simpl. rewrite !app_nil_r, N.add_0_r. by destruct pd.
  - destruct (truthy_get (fileMetadata pd) "fileSize" Hmeta) as (total & Htotal).
    pose proof (handle_binary w i r P pd b total Hi Hr Hmeta Htotal) as Hw1.
    assert (Hlt : (r < length (objects w))%nat) by by eapply lookup_lt_Some.
    destruct (IH (handle w (channel_message i (Binary b))) i r P (push b pd))
      as (progress & Hpeers & Hrecv & Hconn & Hobj & Hlog & Hall).
    { by rewrite Hw1. }
    { rewrite Hw1. simpl. by apply list_lookup_insert_eq. }
    { done. }
    exists (onProgress (receivedBytes pd + len b) total :: progress).
    csimpl in *. rewrite Hpeers, Hrecv, Hconn, Hobj, Hlog, Hw1. simpl.
    split_and!; [done|done|done| |by rewrite <- app_assoc|].
    + f_equal. unfold push, len. simpl. rewrite <- app_assoc, length_app.
      f_equal. lia.
    + constructor; [by eexists _, _|done].
Qed.

Lemma receiver_ready_state P f :
  receiver_ready P f
  = mkTransfer (<[P := 0%nat]> ∅)
      [mkPeerData 0 false [] 0
         (VObj [("fileName", VStr (name f)); ("fileSize", VNum (Z.of_N (size f)));
                ("fileType", VStr (type f))]%string)]
      [mkPc P false []] [mkReceiver (Some 0%nat) P] [] true.
Proof.
  unfold receiver_ready, after. simpl foldl.
  replace (handle constructor (signal_received P (offer_signal VNull f) None))
    with (mkTransfer (<[P := 0%nat]> ∅) [mkPeerData 0 false [] 0 VNull]
                     [mkPc P false []] [] [] true) by reflexivity.
  unfold handle, task, caught, store_metadata, try_catch, _setupDataChannel_receiver.
  cbv [mbind M_bind read mret M_ret offer_metadata lift]. simpl.
  rewrite update_state. simpl. rewrite lookup_insert_eq. simpl.
  by rewrite lookup_insert_eq.
Qed.

(** A whole transfer arriving at the ready receiver: progress reports, then
    the completion with the chunks assembled, then the session is gone. *)
Lemma receive_transfer P f m e bs :
  JSON_parse m = Some (metadata_frame f) ->
  JSON_parse e = Some end_frame ->
  exists progress,
    let w' := after (channel_message 0 <$> Text m :: (Binary <$> bs) ++ [Text e])
                    (receiver_ready P f) in
    log w' = progress ++ [onComplete (new_Blob bs (VStr (type f))) (VStr (name f)) P]
    /\ Forall (fun e => exists done total, e = onProgress done total) progress
    /\ peers w' !! P = None.
Proof.
  intros Hm He. rewrite receiver_ready_state.
  set (w0 := mkTransfer _ _ _ _ _ _).
  rewrite fmap_cons, fmap_app.
  change (after (?x :: ?l) ?w) with (after l (handle w x)). rewrite after_app.
  set (pd0 := mkPeerData 0 false [] 0
         (VObj [("fileName", VStr (name f)); ("fileSize", VNum (Z.of_N (size f)));
                ("fileType", VStr (type f))]%string)).
  assert (Hw1 : handle w0 (channel_message 0 (Text m))
     = mkTransfer (peers w0) (<[0%nat := set_fileMetadata (metadata_frame f) pd0]> (objects w0))
                  (connections w0) (receivers w0) (log w0) (listening w0))
    by (by apply (handle_metadata w0 0 0 P pd0 m (metadata_frame f))).
  rewrite Hw1. simpl.
  set (w1 := mkTransfer _ _ _ _ _ _).
  destruct (receive_chunks bs w1 0 0 P (set_fileMetadata (metadata_frame f) pd0))
    as (progress & Hpeers & Hrecv & Hconn & Hobj & Hlog & Hall); [done..|].
  simpl in Hpeers, Hrecv, Hconn, Hobj, Hlog.
  set (w2 := after (channel_message 0 <$> (Binary <$> bs)) w1) in *.
  exists progress. simpl.
  erewrite (handle_end w2 0 (mkReceiver (Some 0%nat) P) 0 _ e end_frame);
    [| by rewrite Hrecv | by rewrite Hpeers; apply lookup_insert_eq | exact Hobj
     | done | done | done | reflexivity | reflexivity].
  simpl. rewrite Hlog, Hpeers. split_and!; [done|done|].
  apply lookup_delete_eq.
Qed.

(** The async functions run without interleaving are their tasks run back
    to back. *)
Lemma sendFile_tasks n P file w offer :
  peers w !! P = None ->
  constructs n = None -> createOffer n = inr offer -> setLocalDescription n = None ->
  snd (sendFile n P file w)
  = after [sendFile_called P None;
           sendFile_connected (length (connections w)) file;
           settled None;
           sendFile_described P file offer None] w.
Proof.
  intros HP Hctor Hoffer Hlocal.
  unfold after, sendFile. simpl foldl. unfold handle, task, caught, try_catch.
  cbv [mbind M_bind read mret M_ret await lift throw _sendSignal call].
  rewrite Hctor, Hoffer, Hlocal, !getOrCreate_state, HP. simpl.
  rewrite !createDataChannel_state. simpl.
  rewrite !list_lookup_middle by done. simpl.
  rewrite !setupDataChannel_sender_state. simpl.
  rewrite !list_lookup_insert_eq by (rewrite length_app; simpl; lia).
  reflexivity.
Qed.

Lemma handleSignal_offer_tasks n from data w answer :
  listening w = true ->
  get data "type" = inr (VStr "offer") ->
  peers w !! from = None ->
  constructs n = None -> setRemoteDescription n = None ->
  createAnswer n = inr answer -> setLocalDescription n = None ->
  snd (_handleSignal n from data w)
  = after [signal_received from data None;
           offer_connected from data;
           settled None; settled None;
           offer_described from answer None] w.
Proof.
  intros Hl Hty HP Hctor Hremote Hanswer Hlocal.
  unfold after, _handleSignal. simpl foldl.
  unfold handle, task, caught, try_catch, store_metadata.
  cbv [mbind M_bind read mret M_ret await lift throw _sendSignal call].
  rewrite Hl, Hty, Hctor, Hremote, Hanswer, Hlocal. simpl.
  rewrite !getOrCreate_state, HP. simpl.
  destruct data as [| | | | | |fields]; try discriminate Hty. simpl.
  rewrite !update_state. simpl. rewrite !lookup_insert_eq. simpl.
  rewrite !list_lookup_middle by done. reflexivity.
Qed.

End Receiving.

Section TransferClaims.

Context `{JSON}.

(** C1.  Round trip of the chunk codec.  For every file and every chunk
    size above zero, on a channel that stays open the sender's loop ends
    after sending the metadata frame, the slices and the end frame; every
    slice but the last has exactly the chunk size and the last one at most
    the chunk size; the slices concatenated in order, which is what
    [new Blob] does with them, are the file's bytes; and the receiver that
    is fed these frames completes with a blob holding exactly these bytes. *)
Theorem chunk_roundtrip (C : N) (f : File) (c : RTCDataChannel)
    (ts : list transport) (P : string) :
  0 < C ->
  ready c = open ->
  sent c = [] ->
  Forall (fun t => state t = open) ts ->
  (2 * length (bytes f) + 1 <= length ts)%nat ->
  JSON_parse (JSON_stringify (metadata_frame f)) = Some (metadata_frame f) ->
  JSON_parse (JSON_stringify end_frame) = Some end_frame ->
  exists chunks last progress,
    let s := run C ts (_sendFileInChunks C c f) in
    next s = idle
    /\ sent (channel s)
       = Text (JSON_stringify (metadata_frame f))
         :: (Binary <$> chunks ++ [last]) ++ [Text (JSON_stringify end_frame)]
    /\ Forall (fun b => len b = C) chunks
    /\ len last <= C
    /\ blob_bytes (new_Blob (chunks ++ [last]) (VStr (type f))) = bytes f
    /\ log (after (channel_message 0 <$> sent (channel s)) (receiver_ready P f))
       = progress ++ [onComplete (mkBlob (bytes f) (VStr (type f))) (VStr (name f)) P]
    /\ Forall (fun e => exists done total, e = onProgress done total) progress.
Proof.
  intros HC Hready Hc Hopen Hts Hm He.
  destruct (run_transfer C c f ts Hready HC Hopen Hts)
    as (chunks & last & Hidle & Hsent & Hall & Hlast & Hcat).
  rewrite Hc in Hsent. simpl in Hsent.
  destruct (receive_transfer P f _ _ (chunks ++ [last]) Hm He)
    as (progress & Hlog & Hprogress & _).
  exists chunks, last, progress. cbv zeta in *. rewrite Hsent.
  split_and!; [done|done|done|done|done| |done].
  rewrite Hlog. unfold new_Blob. by rewrite Hcat.
Qed.

(** C5, as the code has it.  For a file of size 0 the loop still reads one
    slice: the sender emits the metadata frame, one binary message of zero
    bytes and the end frame, and reports progress (0, 0) once; the receiver
    that is fed these frames reports progress (0, 0) too, assembles an empty
    blob and completes with size 0. *)
Theorem empty_file_sends_one_empty_chunk (C : N) (f : File) (c : RTCDataChannel)
    (t : transport) (ts : list transport) (P : string) :
  bytes f = [] ->
  ready c = open ->
  sent c = [] ->
  state t = open ->
  JSON_parse (JSON_stringify (metadata_frame f)) = Some (metadata_frame f) ->
  JSON_parse (JSON_stringify end_frame) = Some end_frame ->
  let s := run C (t :: ts) (_sendFileInChunks C c f) in
  sent (channel s)
  = [Text (JSON_stringify (metadata_frame f)); Binary [];
     Text (JSON_stringify end_frame)]
  /\ calls s = [onProgress 0 (VNum 0)]
  /\ next s = idle
  /\ log (after (channel_message 0 <$> sent (channel s)) (receiver_ready P f))
     = [onProgress 0 (VNum 0);
        onComplete (mkBlob [] (VStr (type f))) (VStr (name f)) P]
  /\ blob_size (mkBlob [] (VStr (type f))) = 0.
Proof.
  intros Hf Hready Hc Ht Hm He s.
  assert (Hsize : size f = 0) by (unfold size; by rewrite Hf).
  assert (Hs : s = mkSender f 0
            (mkChannel open (bufferedAmount
                               (send (Text (JSON_stringify (metadata_frame f))) c)
                             - drained t + 0
                             + byteSize (Text (JSON_stringify end_frame)))
               [Text (JSON_stringify (metadata_frame f)); Binary [];
                Text (JSON_stringify end_frame)])
            [onProgress 0 (VNum 0)] idle).
  { unfold s. rewrite (sendFileInChunks_open C c f Hready).
    change (run C (t :: ts) ?x) with (run C ts (step C t x)).
    rewrite (step_last C t _ []); [rewrite run_idle by done| | |].
    - unfold send, observe. simpl. rewrite Hc, Ht, Hsize. reflexivity.
    - unfold slice. simpl. by rewrite Hf, drop_nil, take_nil.
    - done.
    - simpl. rewrite Hsize. lia. }
  rewrite Hs. simpl. split_and!; [done|done|done| |done].
  rewrite receiver_ready_state.
  set (pd0 := mkPeerData 0 false [] 0 _).
  set (w0 := mkTransfer _ _ _ _ _ _).
  change (after (?x :: ?l) ?w) with (after l (handle w x)).
  rewrite (handle_metadata w0 0 0 P pd0 _ (metadata_frame f)) by done.
  change (after (?x :: ?l) ?w) with (after l (handle w x)).
  erewrite (handle_binary _ 0 0 P (set_fileMetadata (metadata_frame f) pd0) []);
    [|done|done|done|reflexivity].
  change (after (?x :: ?l) ?w) with (after l (handle w x)).
  erewrite (handle_end _ 0 (mkReceiver (Some 0%nat) P) 0 _ _ end_frame);
    [|done|apply lookup_insert_eq|done|done|done|done|reflexivity|reflexivity].
  simpl. by rewrite Hsize.
Qed.

End TransferClaims.

(** ** Invariants of the [peerData] objects *)

#[local] Instance grows_preorder : PreOrder grows.
Proof. split; unfold grows; [intros pd; lia|intros pd1 pd2 pd3; lia]. Qed.

#[local] Instance same_metadata_preorder : PreOrder same_metadata.
Proof. split; unfold same_metadata; [done|intros pd1 pd2 pd3; congruence]. Qed.

Lemma along_fresh P `{!PreOrder P} os pd : along P os (os ++ [pd]).
Proof.
  intros r pd0 Hr. exists pd0. split; [by apply lookup_app_l_Some|reflexivity].
Qed.

Lemma along_insert P `{!PreOrder P} os r pd pd' :
  os !! r = Some pd -> P pd pd' -> along P os (<[r := pd']> os).
Proof.
  intros Hr HP r0 pd0 Hr0. destruct (decide (r = r0)) as [<-|Hne].
  - exists pd'. simplify_eq. split; [|done].
    apply list_lookup_insert_eq. by eapply lookup_lt_Some.
  - exists pd0. rewrite list_lookup_insert_ne by done. split; [done|reflexivity].
Qed.

Lemma keeping_fresh (I : peerData -> Prop) os pd : I pd -> keeping I os (os ++ [pd]).
Proof. intros Hpd Hos. apply Forall_app. split; [done|by constructor]. Qed.

Lemma keeping_insert (I : peerData -> Prop) os r pd' :
  I pd' -> keeping I os (<[r := pd']> os).
Proof. intros Hpd Hos. by apply Forall_insert. Qed.

Lemma counted_push chunk pd : counted pd -> counted (push chunk pd).
Proof.
  unfold counted, push, total_byteLength. simpl. intros ->.
  induction (receivedChunks pd) as [|b bs IH]; simpl; lia.
Qed.

Section ObjectInvariants.

Context `{JSON}.

Lemma counted_task ev w :
  Forall counted (objects w) -> Forall counted (objects (handle w ev)).
Proof.
  revert w. apply (objects_task (keeping counted)).
  - intros os p b. by apply keeping_fresh.
  - intros chunk os r pd Hr Hos. apply Forall_insert; [done|].
    apply counted_push. by eapply Forall_lookup_1.
  - intros _ v os r pd Hr Hos. apply Forall_insert; [done|].
    change (counted pd). by eapply Forall_lookup_1.
Qed.

Lemma counted_after evs : Forall counted (objects (after evs constructor)).
Proof.
  induction evs as [|ev evs IH] using rev_ind; [by constructor|].
  rewrite after_app. exact (counted_task ev _ IH).
Qed.

Lemma grows_task ev w : along grows (objects w) (objects (handle w ev)).
Proof.
  revert w. apply (objects_task (along grows)).
  - intros os p b. apply (along_fresh grows).
  - intros chunk os r pd Hr. apply (along_insert grows os r pd); [done|].
    unfold grows, push. simpl. lia.
  - intros _ v os r pd Hr. apply (along_insert grows os r pd); [done|].
    unfold grows. simpl. lia.
Qed.

Lemma same_metadata_task ev w :
  ~ writes_metadata ev -> along same_metadata (objects w) (objects (handle w ev)).
Proof.
  intros Hev. revert w. apply (objects_task (along same_metadata)).
  - intros os p b. apply (along_fresh same_metadata).
  - intros chunk os r pd Hr. by apply (along_insert same_metadata os r pd).
  - done.
Qed.

(** The objects after a text frame and after the store of an offer. *)
Lemma assembleFile_objects peerId w : objects (snd (_assembleFile peerId w)) = objects w.
Proof.
  unfold _assembleFile. cbv [mbind M_bind read].
  destruct (peers_get w peerId) as [[r pd]|]; [|done].
  destruct (truthy (fileMetadata pd)); [|done]. simpl.
  destruct (get (fileMetadata pd) "fileType"); [done|]. simpl.
  destruct (get (fileMetadata pd) "fileName"); [done|]. simpl.
  match goal with |- context [_cleanupPeer peerId ?w1] =>
    pose proof (cleanupPeer_state peerId w1) as Hc;
    destruct (_cleanupPeer peerId w1) as [[e|[]] w2]
  end; simpl in *; subst w2;
  by destruct (peers_get _ peerId) as [[r' pd']|].
Qed.

Lemma objects_text w i s :
  objects (handle w (channel_message i (Text s)))
  = match receivers w !! i, JSON_parse s with
    | Some rx, Some v =>
        match get v "type" with
        | inr ty =>
            if is_str ty "metadata" then
              match rx_peerData rx ≫= (objects w !!.) with
              | Some pd =>
                  <[default 0%nat (rx_peerData rx) := set_fileMetadata v pd]> (objects w)
              | None => objects w
              end
            else objects w
        | inl _ => objects w
        end
    | _, _ => objects w
    end.
Proof.
  unfold handle, task. unfold mbind at 1, M_bind, read.
  destruct (receivers w !! i) as [rx|]; [|done].
  unfold onmessage. destruct (JSON_parse s) as [v|]; [|done].
  destruct (get v "type") as [e|ty]; [done|].
  cbv [lift mbind M_bind mret M_ret]. simpl.
  destruct (is_str ty "metadata").
  - rewrite update_state. destruct (rx_peerData rx) as [r0|]; simpl; [|done].
    by destruct (objects w !! r0).
  - destruct (is_str ty "end"); [apply assembleFile_objects|done].
Qed.

Lemma objects_offer w from data :
  objects (handle w (offer_connected from data))
  = match offer_metadata data, peers w !! from ≫= (objects w !!.) with
    | inr v, Some pd =>
        <[default 0%nat (peers w !! from) := set_fileMetadata v pd]> (objects w)
    | _, _ => objects w
    end.
Proof.
  unfold handle, task, caught, store_metadata, try_catch.
  cbv [lift mbind M_bind mret M_ret read throw call].
  destruct (offer_metadata data) as [e|v].
  - destruct (peers w !! from) as [r0|]; simpl; [|done].
    by destruct (objects w !! r0).
  - rewrite update_state. destruct (peers w !! from) as [r0|]; simpl; [|done].
    by destruct (objects w !! r0).
Qed.

End ObjectInvariants.

(** Two equations for the same term with different results. *)
Ltac clash :=
  intros; simplify_eq; simpl in *; try congruence;
  repeat match goal with
         | H1 : ?x = inr _, H2 : ?x = inr _ |- _ => rewrite H1 in H2; simplify_eq
         end;
  simpl in *; congruence.

Section CoordinatorClaims.

Context `{JSON}.

(** C7.  At most one session per peer.  After any run of tasks from the
    constructor (calls of [sendFile], inbound signals, resumptions after
    every [await], channel and connection events, [destroy], in any
    order), two live sessions of the same peer are the same session, the
    live sessions are exactly the registered ones, and
    [_getOrCreatePeerConnection] changes nothing when the peer already has an
    entry: it creates and inserts a session only when there is none. *)
Theorem at_most_one_session (evs : list event) (P : string) :
  let w := after evs constructor in
  (forall p1 p2, live w p1 P -> live w p2 P -> p1 = p2)
  /\ (forall p, live w p P <-> registered w p P)
  /\ (forall ctor isInitiator,
        peers w !! P <> None ->
        snd (_getOrCreatePeerConnection ctor P isInitiator w) = w)
  /\ (forall ctor isInitiator,
        peers w !! P = None -> ctor = None ->
        let w' := snd (_getOrCreatePeerConnection ctor P isInitiator w) in
        live w' (length (connections w)) P
        /\ peers w' = <[P := length (objects w)]> (peers w)).
Proof.
  intros w.
  assert (Hw : consistent w) by apply consistent_after, consistent_constructor.
  assert (Hiff : forall p, live w p P <-> registered w p P).
  { intros p. split; [apply Hw|].
    intros (r & pd & Hr & Hpd & <-).
    destruct (registered_live w Hw P r Hr) as (pd' & Hpd' & Hl). by simplify_eq. }
  split_and!; [|done| |].
  - intros p1 p2 H1 H2.
    apply Hiff in H1 as (r1 & pd1 & Hr1 & Hpd1 & <-).
    apply Hiff in H2 as (r2 & pd2 & Hr2 & Hpd2 & <-).
    by simplify_eq.
  - intros ctor isInitiator HP. rewrite getOrCreate_state.
    destruct (peers w !! P) as [r|]; [|done]. by destruct (objects w !! r).
  - intros ctor isInitiator HP -> w'. unfold w'.
    rewrite getOrCreate_state, HP. simpl. split; [|done].
    eexists. simpl. split; [by apply list_lookup_middle|done].
Qed.

(** C8.  For every [peerData] object of every state reached from the
    constructor, [receivedBytes] is the sum of the lengths of the buffers in
    [receivedChunks]; whatever task comes next, the object is still there,
    still counted, and its [receivedBytes] has not decreased; a binary
    chunk arriving on a channel that captured the object appends the chunk
    and adds its length. *)
Theorem receivedBytes_counts_chunks (evs : list event) (ev : event)
    (r : nat) (pd : peerData) :
  objects (after evs constructor) !! r = Some pd ->
  counted pd
  /\ exists pd',
       objects (handle (after evs constructor) ev) !! r = Some pd'
       /\ counted pd'
       /\ receivedBytes pd <= receivedBytes pd'
       /\ (forall i P chunk,
             ev = channel_message i (Binary chunk) ->
             receivers (after evs constructor) !! i = Some (mkReceiver (Some r) P) ->
             receivedChunks pd' = receivedChunks pd ++ [chunk]
             /\ receivedBytes pd' = receivedBytes pd + len chunk).
Proof.
  intros Hr. set (w := after evs constructor) in *.
  assert (Hpd : counted pd)
    by (eapply Forall_lookup_1; [apply (counted_after evs)|exact Hr]).
  split; [done|].
  destruct (grows_task ev w r pd Hr) as (pd' & Hr' & Hgrow).
  exists pd'. split_and!; [done| |done|].
  - eapply Forall_lookup_1; [apply (counted_after (evs ++ [ev]))|].
    rewrite after_app. exact Hr'.
  - intros i P chunk -> Hi.
    assert (Hw' : objects (handle w (channel_message i (Binary chunk)))
                  = <[r := push chunk pd]> (objects w)).
    { unfold handle, task. unfold mbind at 1, M_bind, read.
      rewrite Hi. unfold onmessage. unfold mbind at 1, M_bind.
      rewrite update_state. simpl. rewrite Hr. simpl.
      destruct (truthy (fileMetadata pd)); [|done].
      by destruct (get (fileMetadata pd) "fileSize"). }
    rewrite Hw' in Hr'.
    rewrite list_lookup_insert_eq in Hr' by by eapply lookup_lt_Some.
    by simplify_eq.
Qed.

(** C9, as the code has it.  The stored metadata of a session is assigned
    by two tasks only, and each of them overwrites it whether it was set or
    not: a text frame whose [type] is ['metadata'], on a channel that captured
    the session's object, stores the parsed frame; the resumption of an offer
    for the peer registered to this object stores the offer's three fields.
    Every other task leaves [fileMetadata] as it was. *)
Theorem metadata_written_by_frames_and_offers (w : P2PFileTransfer) (ev : event)
    (r : nat) (pd : peerData) :
  objects w !! r = Some pd ->
  exists pd',
    objects (handle w ev) !! r = Some pd'
    /\ (fileMetadata pd' = fileMetadata pd
        \/ (exists i P s ty,
              ev = channel_message i (Text s)
              /\ receivers w !! i = Some (mkReceiver (Some r) P)
              /\ get (fileMetadata pd') "type" = inr ty
              /\ is_str ty "metadata" = true
              /\ JSON_parse s = Some (fileMetadata pd'))
        \/ (exists from data,
              ev = offer_connected from data
              /\ peers w !! from = Some r
              /\ offer_metadata data = inr (fileMetadata pd')))
    /\ (forall i P s v,
          ev = channel_message i (Text s) ->
          receivers w !! i = Some (mkReceiver (Some r) P) ->
          JSON_parse s = Some v ->
          get v "type" = inr (VStr "metadata") ->
          fileMetadata pd' = v)
    /\ (forall from data v,
          ev = offer_connected from data ->
          peers w !! from = Some r ->
          offer_metadata data = inr v ->
          fileMetadata pd' = v).
Proof.
  intros Hr.
  assert (Hlt : (r < length (objects w))%nat) by by eapply lookup_lt_Some.
  assert (Hquiet : ~ writes_metadata ev ->
    (forall i s, ev <> channel_message i (Text s)) ->
    (forall from data, ev <> offer_connected from data) ->
    exists pd', objects (handle w ev) !! r = Some pd'
      /\ fileMetadata pd' = fileMetadata pd).
  { intros Hev _ _. exact (same_metadata_task ev w Hev r pd Hr). }
  destruct ev as [| | | | from data | | | | | | i [s|chunk] | |];
    try (destruct Hquiet as (pd' & Hr' & Hsame'); [by intros []|done|done|];
         exists pd'; split_and!; [done|by left|done|done]).
  - (* the resumption of an offer *)
    rewrite objects_offer in *.
    destruct (offer_metadata data) as [e|v] eqn:Hv.
    { exists pd. split_and!; [done|by left|done|clash]. }
    destruct (peers w !! from) as [r0|] eqn:Hfrom; simpl in *.
    2: { exists pd. split_and!; [done|by left|done|clash]. }
    destruct (objects w !! r0) as [pd0|] eqn:Hr0.
    2: { exists pd. split_and!; [done|by left|done|clash]. }
    destruct (decide (r0 = r)) as [->|Hne].
    + simplify_eq. exists (set_fileMetadata v pd).
      rewrite list_lookup_insert_eq by done.
      split_and!; [done| |done|clash].
      right; right. by exists from, data.
    + exists pd. rewrite list_lookup_insert_ne by done.
      split_and!; [done|by left|done|clash].
  - (* a text frame *)
    rewrite objects_text in *.
    destruct (receivers w !! i) as [rx|] eqn:Hi.
    2: { exists pd. split_and!; [done|by left|clash|done]. }
    destruct (JSON_parse s) as [v|] eqn:Hs.
    2: { exists pd. split_and!; [done|by left|clash|done]. }
    destruct (get v "type") as [e|ty] eqn:Hty.
    { exists pd. split_and!; [done|by left|clash|done]. }
    destruct (is_str ty "metadata") eqn:Hmeta.
    2: { exists pd. split_and!; [done|by left|clash|done]. }
    destruct rx as [[r0|] P]; simpl in *.
    2: { exists pd. split_and!; [done|by left|clash|done]. }
    destruct (objects w !! r0) as [pd0|] eqn:Hr0.
    2: { exists pd. split_and!; [done|by left|clash|done]. }
    destruct (decide (r0 = r)) as [->|Hne].
    + simplify_eq. exists (set_fileMetadata v pd).
      rewrite list_lookup_insert_eq by done.
      split_and!; [done| |clash|done].
      right; left. by exists i, P, s, ty.
    + exists pd. rewrite list_lookup_insert_ne by done.
      split_and!; [done|by left|clash|done].
Qed.

(** C3, as the code has it.  A malformed text frame leaves the session as
    it is: the registry, the objects (received chunks, byte count,
    metadata), the connections and the channels are unchanged, nothing is
    torn down.  An end frame that arrives while no metadata is stored is
    dropped by the guard of [_assembleFile]: the handler returns normally,
    no callback at all is invoked and the whole instance is unchanged. *)
Theorem malformed_frame_keeps_session (w : P2PFileTransfer) (i : nat)
    (rx : receiver) (s : string) :
  receivers w !! i = Some rx ->
  unparseable s \/ premature_end w rx s ->
  let w' := handle w (channel_message i (Text s)) in
  peers w' = peers w /\ objects w' = objects w
  /\ connections w' = connections w /\ receivers w' = receivers w
  /\ listening w' = listening w
  /\ (premature_end w rx s ->
      task (channel_message i (Text s)) w = (inr tt, w)).
Proof.
  intros Hi Hbad w'.
  assert (Hend : premature_end w rx s ->
            task (channel_message i (Text s)) w = (inr tt, w)).
  { intros (v & Hs & Hty & Hmeta).
    unfold task. cbv [mbind M_bind read]. rewrite Hi.
    unfold onmessage. rewrite Hs, Hty.
    cbv [lift mbind M_bind mret M_ret]. simpl.
    unfold _assembleFile. cbv [mbind M_bind read].
    destruct (peers_get w (rx_peerId rx)) as [[r pd]|] eqn:Hget; [|done].
    by rewrite (Hmeta r pd). }
  destruct Hbad as [Hs|Hbad].
  - assert (Hw' : w' = w).
    { unfold w', handle, task. cbv [mbind M_bind read]. rewrite Hi.
      unfold onmessage. by rewrite Hs. }
    by rewrite Hw'.
  - assert (Hw' : w' = w) by (unfold w', handle; by rewrite Hend).
    by rewrite Hw'.
Qed.

(** C4, as the code has it.  A [sendFile] for a peer that already has a
    session, whatever role that session was created in, gets the existing
    connection from the registry, which creates nothing and changes nothing;
    the call then opens one more data channel on that connection, next to
    the ones already there. *)
Theorem second_sendFile_opens_another_channel (w : P2PFileTransfer)
    (n : negotiator) (P : string) (file : File) (isInitiator : bool)
    (r : nat) (pd : peerData) (c : RTCPeerConnection) :
  peers w !! P = Some r ->
  objects w !! r = Some pd ->
  connections w !! pc pd = Some c ->
  closed c = false ->
  _getOrCreatePeerConnection (constructs n) P isInitiator w = (inr (pc pd), w)
  /\ let w' := snd (sendFile n P file w) in
     peers w' = peers w /\ objects w' = objects w
     /\ connections w'
        = <[pc pd := mkPc (owner c) false
                       (dataChannels c ++ [mkLocal "fileTransfer" (Some file)])]>
            (connections w).
Proof.
  intros HP Hpd Hc Hopen.
  assert (Hp : (pc pd < length (connections w))%nat) by by eapply lookup_lt_Some.
  split; [by rewrite getOrCreate_state, HP, Hpd|].
  intros w'.
  assert (Hw' : exists l, w' = mkTransfer (peers w) (objects w)
            (<[pc pd := mkPc (owner c) false
                 (dataChannels c ++ [mkLocal "fileTransfer" (Some file)])]>
               (connections w))
            (receivers w) l (listening w)).
  { unfold w', sendFile, caught, try_catch.
    unfold mbind at 1, M_bind. rewrite getOrCreate_state, HP, Hpd.
    unfold mbind at 1, M_bind. rewrite createDataChannel_state, Hc, Hopen.
    unfold mbind at 1, M_bind. rewrite setupDataChannel_sender_state. simpl.
    rewrite list_lookup_insert_eq by done. simpl.
    rewrite list_insert_insert_eq.
    replace (alter _ (length (dataChannels c))
               (dataChannels c ++ [mkLocal "fileTransfer" None]))
      with (dataChannels c ++ [mkLocal "fileTransfer" (Some file)]).
    2: { rewrite <- (Nat.add_0_r (length (dataChannels c))) at 1.
         by rewrite alter_app_r. }
    cbv [lift mbind M_bind mret M_ret throw await _sendSignal call].
    destruct (createOffer n) as [e|offer]; simpl; [by eexists|].
    destruct (setLocalDescription n); simpl; by eexists. }
  destruct Hw' as (l & ->). done.
Qed.

(** C6, as the code has it.  [sendFile] catches every error and hands it to
    the error callback; the promise it returns is fulfilled in every case and
    never rejected.  When the construction of the session or the creation of
    the offer fails with an error, the error callback is invoked with that
    error, once, and nothing else is reported or signalled. *)
Theorem sendFile_reports_and_resolves (n : negotiator) (P : string)
    (file : File) (w : P2PFileTransfer) (e : error) :
  sendFile_fails n P w e ->
  fst (sendFile n P file w) = inr tt
  /\ log (snd (sendFile n P file w)) = log w ++ [onError e]
  /\ forall n' P' file' w', fst (sendFile n' P' file' w') = inr tt.
Proof.
  intros Hfail.
  assert (Hresolves : forall n' P' file' w', fst (sendFile n' P' file' w') = inr tt).
  { intros n' P' file' w'. unfold sendFile, caught, try_catch.
    match goal with
    | |- context [match ?m with _ => _ end] => by destruct m as [[err|[]] w1]
    end. }
  split_and!; [done| |done].
  unfold sendFile, caught, try_catch.
  unfold mbind at 1, M_bind. rewrite getOrCreate_state.
  destruct Hfail as [HP Hctor|HP Hctor Hoffer|r pd c HP Hpd Hc Hopen Hoffer];
    rewrite HP.
  - by rewrite Hctor.
  - rewrite Hctor.
    unfold mbind at 1, M_bind. rewrite createDataChannel_state. simpl.
    rewrite list_lookup_middle by done. simpl.
    unfold mbind at 1, M_bind. rewrite setupDataChannel_sender_state. simpl.
    rewrite list_lookup_insert_eq by (rewrite length_app; simpl; lia).
    unfold mbind at 1, M_bind. by rewrite Hoffer.
  - rewrite Hpd.
    unfold mbind at 1, M_bind. rewrite createDataChannel_state, Hc, Hopen.
    unfold mbind at 1, M_bind. rewrite setupDataChannel_sender_state. simpl.
    rewrite list_lookup_insert_eq by by eapply lookup_lt_Some.
    unfold mbind at 1, M_bind. by rewrite Hoffer.
Qed.

End CoordinatorClaims.

(** * Further properties *)

(** ** The sender's stream, whatever the transport does *)

Section Streaming.

Context `{JSON}.
Variable C : N.

Lemma len_app (a b : list byte) : len (a ++ b) = len a + len b.
Proof. unfold len. rewrite length_app. lia. Qed.

Lemma progress_after_snoc total done chunks b :
  progress_after total done (chunks ++ [b])
  = progress_after total done chunks
    ++ [onProgress (done + len (concat chunks) + len b) (VNum (Z.of_N total))].
Proof.
  revert done. induction chunks as [|a chunks IH]; intros done; simpl.
  - unfold len at 2. simpl. by rewrite N.add_0_r.
  - by rewrite IH, len_app, N.add_assoc.
Qed.

Lemma progress_after_bound total done chunks :
  Forall (fun e => exists d, e = onProgress d (VNum (Z.of_N total))
                             /\ d <= done + len (concat chunks))
         (progress_after total done chunks).
Proof.
  revert done. induction chunks as [|a chunks IH]; intros done; simpl; [constructor|].
  constructor.
  - eexists. split; [done|]. rewrite len_app. lia.
  - eapply Forall_impl; [apply IH|]. intros e (d & -> & Hd). eexists. split; [done|].
    rewrite len_app. lia.
Qed.

Lemma binaries_app ms1 ms2 : binaries (ms1 ++ ms2) = binaries ms1 ++ binaries ms2.
Proof. induction ms1 as [|[s|b] ms1 IH]; simpl; [done|done|by rewrite IH]. Qed.

Lemma binaries_fmap bs : binaries (Binary <$> bs) = bs.
Proof. induction bs as [|b bs IH]; csimpl; [done|by rewrite IH]. Qed.

Lemma streaming_bound f s chunks fin : streaming C f s chunks fin -> offset s <= size f.
Proof.
  intros [_ _ Hoff Hpre _ _ _]. rewrite Hpre in Hoff. unfold len, size, len in *.
  rewrite length_take in Hoff. lia.
Qed.

Lemma take_slice f start :
  start <= size f ->
  take (N.to_nat start) (bytes f) ++ slice f start (start + C)
  = take (N.to_nat (start + len (slice f start (start + C)))) (bytes f).
Proof.
  intros Hle. rewrite length_slice. unfold slice, size, len in *.
  replace (start + C - start) with C by lia.
  rewrite take_take_drop.
  destruct (decide (C <= N.of_nat (length (bytes f)) - start)) as [HC|HC].
  - f_equal. lia.
  - rewrite !take_ge; [done|lia|lia].
Qed.

Lemma streaming_start c f :
  ready c = open -> sent c = [] ->
  streaming C f (_sendFileInChunks C c f) [] false.
Proof.
  intros Hc Hsent. rewrite (sendFileInChunks_open C c f Hc).
  split; simpl; try done. by rewrite Hsent.
Qed.

Lemma step_closed t s result :
  next s = reading result -> state t <> open ->
  step C t s = mkSender (file s) (offset s) (observe t (channel s)) (calls s) idle.
Proof.
  intros Hnext Ht. unfold step. rewrite Hnext. unfold reader_onload. simpl.
  by rewrite decide_False.
Qed.

Lemma streaming_step f s t chunks fin :
  streaming C f s chunks fin ->
  exists chunks' fin', streaming C f (step C t s) chunks' fin'.
Proof.
  intros Hs. pose proof (streaming_bound f s chunks fin Hs) as Hle.
  destruct Hs as [Hf Hsent Hoff Hpre Hall Hcalls Hnext].
  destruct (next s) as [result|ms|] eqn:Hn.
  - destruct Hnext as [-> ->].
    pose proof (length_slice C f (offset s)) as Hlen.
    pose proof (take_slice f (offset s) Hle) as Htake.
    set (result := slice f (offset s) (offset s + C)) in *.
    destruct (decide (state t = open)) as [Hopen|Hopen].
    2: { rewrite (step_closed t s result Hn Hopen).
         exists chunks, false. by split. }
    assert (Hcat : concat (chunks ++ [result])
                   = take (N.to_nat (offset s + len result)) (bytes f)).
    { rewrite concat_app. simpl. by rewrite app_nil_r, Hpre. }
    assert (Hoff' : offset s + len result = len (concat (chunks ++ [result]))).
    { rewrite concat_app. simpl. rewrite app_nil_r, len_app. lia. }
    assert (Hall' : Forall (fun b => len b <= C) (chunks ++ [result])).
    { apply Forall_app. split; [done|]. constructor; [lia|done]. }
    assert (Hcalls' : calls s ++ [onProgress (offset s + len result)
                                    (VNum (Z.of_N (size (file s))))]
                      = progress_after (size f) 0 (chunks ++ [result])).
    { by rewrite progress_after_snoc, Hcalls, Hf, Hoff. }
    assert (Hsent' : sent (channel s) ++ [Binary result]
                     = Text (JSON_stringify (metadata_frame f))
                       :: (Binary <$> chunks ++ [result]) ++ []).
    { rewrite Hsent, fmap_app, !app_nil_r. done. }
    destruct (decide (offset s + len result < size (file s))) as [Hlt|Hge].
    + exists (chunks ++ [result]), false.
      destruct (decide (C * 10 < bufferedAmount (observe t (channel s)) + len result))
        as [Hbuf|Hbuf].
      * rewrite (step_wait C t s result) by done. by split.
      * rewrite (step_more C t s result) by (done || lia). split; simpl; try done.
        by rewrite Hf.
    + exists (chunks ++ [result]), true.
      rewrite (step_last C t s result) by (done || lia).
      split; simpl; try done.
      * rewrite Hsent'. simpl. by rewrite app_nil_r.
      * intros _. rewrite Hf in Hge. lia.
  - rewrite (step_timeout C t s ms Hn).
    exists chunks, fin. split; simpl; try done. by rewrite Hf.
  - exists chunks, fin. unfold step. rewrite Hn. split; try done. by rewrite Hn.
Qed.

Lemma streaming_run f ts : forall s chunks fin,
  streaming C f s chunks fin ->
  exists chunks' fin', streaming C f (run C ts s) chunks' fin'.
Proof.
  induction ts as [|t ts IH]; intros s chunks fin Hs; [by exists chunks, fin|].
  simpl. destruct (streaming_step f s t chunks fin Hs) as (chunks1 & fin1 & Hs1).
  by apply (IH _ chunks1 fin1).
Qed.

End Streaming.

Section SenderProperties.

Context `{JSON}.
Variable C : N.

Lemma progress_after_last total chunks e :
  last (progress_after total 0 chunks) = Some e ->
  e = onProgress (len (concat chunks)) (VNum (Z.of_N total)).
Proof.
  destruct chunks as [|b chunks _] using rev_ind; [done|].
  rewrite progress_after_snoc, last_snoc. intros [= <-].
  rewrite concat_app. simpl. by rewrite app_nil_r, len_app.
Qed.

(** X1.  Whatever the transport does (draining or not, closing at any
    time), a sender started on an open, fresh channel has sent the metadata
    frame first, then binary chunks, then at most one end frame; the chunks,
    in order, are exactly the first [offset] bytes of the file, none is
    longer than the chunk size, and the end frame is there only once the
    whole file has gone out, after which nothing is pending. *)
Theorem sent_stream_is_file_prefix (f : File) (c : RTCDataChannel)
    (ts : list transport) :
  ready c = open ->
  sent c = [] ->
  let s := run C ts (_sendFileInChunks C c f) in
  exists chunks (fin : bool),
    sent (channel s)
    = Text (JSON_stringify (metadata_frame f))
      :: (Binary <$> chunks)
      ++ (if fin then [Text (JSON_stringify end_frame)] else [])
    /\ concat chunks = take (N.to_nat (offset s)) (bytes f)
    /\ Forall (fun b => len b <= C) chunks
    /\ (fin = true -> concat chunks = bytes f /\ next s = idle).
Proof.
  intros Hc Hsent s.
  destruct (streaming_run C f ts _ [] false (streaming_start C c f Hc Hsent))
    as (chunks & fin & Hs).
  pose proof (streaming_bound C f _ chunks fin Hs) as Hle.
  destruct Hs as [Hf Hsent' Hoff Hpre Hall Hcalls Hnext].
  fold s in Hf, Hsent', Hoff, Hpre, Hcalls, Hnext, Hle.
  exists chunks, fin. split_and!; [done|done|done|].
  intros ->. destruct (next s) as [result|ms|]; [by destruct Hnext|done|].
  split; [|done]. rewrite Hpre, Hnext by done. apply take_ge. unfold size, len. lia.
Qed.

(** X2.  The sender's progress callback is invoked once per chunk sent and
    for nothing else: the calls are the running byte counts of the chunks
    sent, each with the file size as total; no count exceeds the file size,
    and the last one is the current offset. *)
Theorem progress_follows_chunks (f : File) (c : RTCDataChannel)
    (ts : list transport) :
  ready c = open ->
  sent c = [] ->
  let s := run C ts (_sendFileInChunks C c f) in
  calls s = progress_after (size f) 0 (binaries (sent (channel s)))
  /\ Forall (fun e => exists done, e = onProgress done (VNum (Z.of_N (size f)))
                                   /\ done <= size f) (calls s)
  /\ (forall e, last (calls s) = Some e ->
                e = onProgress (offset s) (VNum (Z.of_N (size f)))).
Proof.
  intros Hc Hsent s.
  destruct (streaming_run C f ts _ [] false (streaming_start C c f Hc Hsent))
    as (chunks & fin & Hs).
  pose proof (streaming_bound C f _ chunks fin Hs) as Hle.
  destruct Hs as [Hf Hsent' Hoff Hpre Hall Hcalls Hnext].
  fold s in Hf, Hsent', Hoff, Hpre, Hcalls, Hnext, Hle.
  assert (Hbin : binaries (sent (channel s)) = chunks).
  { rewrite Hsent'. simpl. rewrite binaries_app, binaries_fmap.
    destruct fin; simpl; by rewrite app_nil_r. }
  rewrite Hbin, Hcalls. split_and!; [done| |].
  - eapply Forall_impl; [apply progress_after_bound|].
    intros e (d & -> & Hd). exists d. split; [done|]. lia.
  - intros e He. rewrite Hoff. by apply progress_after_last.
Qed.

End SenderProperties.

(** ** Teardown: [_cleanupPeer] and [destroy] *)

Lemma cleanupPeer_fst P w : fst (_cleanupPeer P w) = inr tt.
Proof.
  unfold _cleanupPeer, mbind, M_bind, read.
  by destruct (peers_get w P) as [[r pd]|].
Qed.

Lemma cleanupPeer_run P w : _cleanupPeer P w = (inr tt, snd (_cleanupPeer P w)).
Proof.
  pose proof (cleanupPeer_fst P w).
  destruct (_cleanupPeer P w) as [[e|[]] w']; by simplify_eq/=.
Qed.

Lemma consistent_get w P r :
  consistent w -> peers w !! P = Some r ->
  exists pd c, objects w !! r = Some pd /\ peers_get w P = Some (r, pd)
    /\ connections w !! pc pd = Some c /\ owner c = P /\ closed c = false.
Proof.
  intros Hw Hr.
  destruct (registered_live w Hw P r Hr) as (pd & Hpd & c & Hc & Hown & Hcl).
  exists pd, c. split_and!; try done.
  unfold peers_get. rewrite Hr. simpl. by rewrite Hpd.
Qed.

Lemma consistent_get_None w P :
  consistent w -> peers_get w P = None -> peers w !! P = None.
Proof.
  intros Hw Hget. destruct (peers w !! P) as [r|] eqn:Hr; [|done].
  destruct (consistent_get w P r Hw Hr) as (pd & c & _ & Hget' & _). congruence.
Qed.

Lemma consistent_no_entry w P p :
  consistent w -> peers w !! P = None -> ~ live w p P.
Proof.
  intros Hw HP Hl.
  destruct (live_registered w Hw p P Hl) as (r & pd & Hr & _). congruence.
Qed.

Section Teardown.

Context `{JSON}.

(** X3.  [_cleanupPeer(P)] in any state reached from the constructor
    returns normally; afterwards [P] has no entry and no live session; the
    entries and the live sessions of every other peer are as before; the
    [peerData] objects are untouched and no callback is invoked; a second
    call changes nothing. *)
Theorem cleanupPeer_removes_session (evs : list event) (P : string) :
  let w := after evs constructor in
  let w' := snd (_cleanupPeer P w) in
  fst (_cleanupPeer P w) = inr tt
  /\ peers w' !! P = None
  /\ (forall p, ~ live w' p P)
  /\ (forall P', P' <> P ->
        peers w' !! P' = peers w !! P' /\ forall p, live w' p P' <-> live w p P')
  /\ objects w' = objects w
  /\ log w' = log w
  /\ snd (_cleanupPeer P w') = w'.
Proof.
  intros w w'.
  assert (Hw : consistent w) by apply consistent_after, consistent_constructor.
  assert (Hw' : consistent w') by by apply consistent_cleanupPeer.
  assert (HP : peers w' !! P = None).
  { unfold w'. rewrite cleanupPeer_state.
    destruct (peers_get w P) as [[r pd]|] eqn:Hget; simpl.
    - apply lookup_delete_eq.
    - by apply consistent_get_None. }
  split_and!; [apply cleanupPeer_fst|done|by intros p; apply consistent_no_entry| | | |].
  - intros P' Hne. unfold w'. rewrite cleanupPeer_state.
    destruct (peers_get w P) as [[r pd]|] eqn:Hget; [|done].
    unfold peers_get in Hget.
    destruct (peers w !! P) as [r0|] eqn:Hr; simpl in Hget; [|done].
    destruct (consistent_get w P r0 Hw Hr) as (pd0 & c & Hpd0 & _ & Hc & Hown & Hcl).
    rewrite Hpd0 in Hget. simplify_eq/=.
    split; [by apply lookup_delete_ne|].
    intros p. unfold live. simpl.
    destruct (decide (pc pd = p)) as [<-|Hp].
    + rewrite list_lookup_alter_eq, Hc. simpl.
      split; intros (c' & Hc' & Hown' & Hcl'); simplify_eq/=.
    + by rewrite list_lookup_alter_ne.
  - unfold w'. rewrite cleanupPeer_state. by destruct (peers_get w P) as [[r pd]|].
  - unfold w'. rewrite cleanupPeer_state. by destruct (peers_get w P) as [[r pd]|].
  - rewrite cleanupPeer_state. unfold peers_get at 1. by rewrite HP.
Qed.

Lemma forEach_cleanupPeer l : forall w,
  (forall P r, peers w !! P = Some r -> is_Some (objects w !! r)) ->
  let w' := snd (forEach _cleanupPeer l w) in
  (forall P, peers w' !! P = if decide (P ∈ l) then None else peers w !! P)
  /\ objects w' = objects w /\ log w' = log w /\ listening w' = listening w
  /\ receivers w' = receivers w
  /\ fst (forEach _cleanupPeer l w) = inr tt.
Proof.
  induction l as [|P l IH]; intros w Hrefs.
  - simpl. by split_and!.
  - simpl. unfold mbind, M_bind. rewrite cleanupPeer_run.
    set (w1 := snd (_cleanupPeer P w)).
    assert (Hw1 : peers w1 !! P = None
                  /\ (forall P', P' <> P -> peers w1 !! P' = peers w !! P')
                  /\ objects w1 = objects w /\ log w1 = log w
                  /\ listening w1 = listening w /\ receivers w1 = receivers w).
    { unfold w1. rewrite cleanupPeer_state. unfold peers_get.
      destruct (peers w !! P) as [r|] eqn:Hr; simpl; [|done].
      destruct (Hrefs P r Hr) as [pd Hpd]. rewrite Hpd. simpl.
      split_and!; try done; [apply lookup_delete_eq|].
      intros P' Hne. by apply lookup_delete_ne. }
    destruct Hw1 as (HP & Hother & Hobj & Hlog & Hlis & Hrecv).
    destruct (IH w1) as (Hpeers & Hobj' & Hlog' & Hlis' & Hrecv' & Hfst).
    { intros P' r Hr. rewrite Hobj. apply (Hrefs P' r).
      destruct (decide (P' = P)) as [->|Hne]; [congruence|]. by rewrite <- Hother. }
    split_and!; try congruence.
    intros P'. rewrite Hpeers.
    destruct (decide (P' = P)) as [->|Hne].
    + rewrite (decide_True (P := P ∈ P :: l)) by (apply elem_of_cons; by left).
      by destruct (decide (P ∈ l)).
    + rewrite Hother by done.
      destruct (decide (P' ∈ l)) as [Hin|Hin].
      * by rewrite decide_True by (apply elem_of_cons; by right).
      * rewrite decide_False; [done|]. by intros [?|?]%elem_of_cons.
Qed.

(** X4.  [destroy()] in any state reached from the constructor empties the
    registry and leaves no live session for any peer, invokes no callback,
    keeps the [peerData] objects, and detaches the signal listener: a signal
    that arrives afterwards changes nothing. *)
Theorem destroy_closes_every_session (evs : list event) :
  let w := after evs constructor in
  let w' := handle w destroy_called in
  peers w' = ∅
  /\ (forall p P, ~ live w' p P)
  /\ listening w' = false
  /\ objects w' = objects w
  /\ log w' = log w
  /\ (forall from data ctor, handle w' (signal_received from data ctor) = w').
Proof.
  intros w w'.
  assert (Hw : consistent w) by apply consistent_after, consistent_constructor.
  assert (Hw' : consistent w') by by apply consistent_task.
  destruct (forEach_cleanupPeer (map fst (map_to_list (peers w))) w)
    as (Hpeers & Hobj & Hlog & Hlis & Hrecv & Hfst).
  { intros P r Hr.
    destruct (consistent_get w P r Hw Hr) as (pd & _ & Hpd & _). by exists pd. }
  set (w1 := snd (forEach _cleanupPeer (map fst (map_to_list (peers w))) w)) in *.
  assert (Hstate : w' = mkTransfer (peers w1) (objects w) (connections w1)
                                   (receivers w) (log w) false).
  { unfold w', w1, handle, task, destroy in *. cbv [mbind M_bind read].
    destruct (forEach _cleanupPeer _ w) as [[e|[]] w2]; simpl in *; [done|].
    unfold set_listening. simpl. by rewrite Hobj, Hlog, Hrecv. }
  assert (Hempty : peers w' = ∅).
  { apply map_empty. intros P. rewrite Hstate. simpl. rewrite Hpeers.
    case_decide as Hin; [done|].
    destruct (peers w !! P) as [r|] eqn:Hr; [|done]. exfalso. apply Hin.
    change (P ∈ fst <$> map_to_list (peers w)).
    apply list_elem_of_fmap. exists (P, r). split; [done|].
    by apply elem_of_map_to_list. }
  split_and!; [done| |by rewrite Hstate|by rewrite Hstate|by rewrite Hstate|].
  - intros p P. apply consistent_no_entry; [done|]. by rewrite Hempty.
  - intros from data ctor. unfold handle, task. cbv [mbind M_bind read].
    by rewrite Hstate.
Qed.

End Teardown.

(** ** Signals: [_handleSignal] and [sendFile] *)

Section Signalling.

Context `{JSON}.

Lemma getOrCreate_consistent w ctor P b :
  consistent w -> (peers w !! P = None -> ctor = None) ->
  exists p w1 r pd c,
    _getOrCreatePeerConnection ctor P b w = (inr p, w1)
    /\ peers w1 !! P = Some r /\ objects w1 !! r = Some pd /\ pc pd = p
    /\ connections w1 !! p = Some c /\ owner c = P /\ closed c = false
    /\ log w1 = log w
    /\ (peers w !! P = None ->
        pd = mkPeerData p b [] 0 VNull /\ c = mkPc P false []
        /\ objects w1 = objects w ++ [pd])
    /\ (forall r0, peers w !! P = Some r0 -> w1 = w).
Proof.
  intros Hw Hctor. rewrite getOrCreate_state.
  destruct (peers w !! P) as [r|] eqn:Hr.
  - destruct (consistent_get w P r Hw Hr) as (pd & c & Hpd & _ & Hc & Hown & Hcl).
    rewrite Hpd. exists (pc pd), w, r, pd, c. by split_and!.
  - rewrite Hctor by done.
    eexists _, _, _, _, _. split; [reflexivity|]. simpl.
    split_and!; [apply lookup_insert_eq|by apply list_lookup_middle|done
                |by apply list_lookup_middle|done|done|done|done|done].
Qed.

Lemma sendFile_state n P file w w1 p c :
  _getOrCreatePeerConnection (constructs n) P true w = (inr p, w1) ->
  connections w1 !! p = Some c -> closed c = false ->
  sendFile n P file w
  = (inr tt,
     let w2 := mkTransfer (peers w1) (objects w1)
                 (<[p := mkPc (owner c) false
                           (dataChannels c ++ [mkLocal "fileTransfer" (Some file)])]>
                    (connections w1))
                 (receivers w1) (log w1) (listening w1) in
     match createOffer n with
     | inl e => reported w2 (onError e)
     | inr offer =>
         match setLocalDescription n with
         | Some e => reported w2 (onError e)
         | None => reported w2 (emit P (offer_signal offer file))
         end
     end).
Proof.
  intros Hget Hc Hopen.
  assert (Hp : (p < length (connections w1))%nat) by by eapply lookup_lt_Some.
  unfold sendFile, caught, try_catch.
  unfold mbind at 1, M_bind. rewrite Hget.
  unfold mbind at 1, M_bind. rewrite createDataChannel_state, Hc, Hopen.
  unfold mbind at 1, M_bind. rewrite setupDataChannel_sender_state. simpl.
  rewrite list_lookup_insert_eq by done. simpl.
  rewrite list_insert_insert_eq.
  replace (alter _ (length (dataChannels c))
             (dataChannels c ++ [mkLocal "fileTransfer" None]))
    with (dataChannels c ++ [mkLocal "fileTransfer" (Some file)]).
  2: { rewrite <- (Nat.add_0_r (length (dataChannels c))) at 1.
       by rewrite alter_app_r. }
  cbv [lift mbind M_bind mret M_ret throw await _sendSignal call].
  destruct (createOffer n) as [e|offer]; simpl; [done|].
  by destruct (setLocalDescription n).
Qed.

Lemma handleSignal_offer_state n from fields w w1 p r pd :
  field "type" fields = VStr "offer" ->
  _getOrCreatePeerConnection (constructs n) from false w = (inr p, w1) ->
  peers w1 !! from = Some r -> objects w1 !! r = Some pd ->
  _handleSignal n from (VObj fields) w
  = (inr tt,
     let w2 := mkTransfer (peers w1)
                 (<[r := set_fileMetadata (offered_metadata fields) pd]> (objects w1))
                 (connections w1) (receivers w1) (log w1) (listening w1) in
     match setRemoteDescription n with
     | Some e => reported w2 (onError e)
     | None =>
         match createAnswer n with
         | inl e => reported w2 (onError e)
         | inr answer =>
             match setLocalDescription n with
             | Some e => reported w2 (onError e)
             | None => reported w2 (emit from (answer_signal answer))
             end
         end
     end).
Proof.
  intros Hty Hget Hr Hpd.
  unfold _handleSignal, caught, try_catch. simpl. rewrite Hty. simpl.
  unfold mbind at 1, M_bind. simpl.
  unfold mbind at 1, M_bind. rewrite Hget.
  unfold mbind at 1, M_bind. unfold store_metadata.
  cbv [mbind M_bind read lift offer_metadata get mret M_ret].
  rewrite update_state, Hr. simpl. rewrite Hpd. simpl.
  cbv [await throw mret M_ret lift _sendSignal call].
  destruct (setRemoteDescription n); simpl; [done|].
  destruct (createAnswer n); simpl; [done|].
  by destruct (setLocalDescription n).
Qed.

(** X5.  An answer or a candidate never touches the registry, the objects,
    the connections or the channels.  From a peer without an entry it is
    dropped: nothing at all happens.  From a peer with an entry the only
    possible effect is one error report, when the negotiator rejects the
    description or the candidate. *)
Theorem answer_and_candidate_change_no_session (n : negotiator) (from : string)
    (data : value) (w : P2PFileTransfer) :
  get data "type" = inr (VStr "answer")
  \/ get data "type" = inr (VStr "ice-candidate") ->
  let w' := snd (_handleSignal n from data w) in
  peers w' = peers w /\ objects w' = objects w
  /\ connections w' = connections w /\ receivers w' = receivers w
  /\ (peers_get w from = None -> w' = w)
  /\ (peers_get w from <> None ->
      get data "type" = inr (VStr "answer") ->
      w' = match setRemoteDescription n with
           | Some e => reported w (onError e)
           | None => w
           end)
  /\ (peers_get w from <> None ->
      get data "type" = inr (VStr "ice-candidate") ->
      w' = match addIceCandidate n with
           | Some e => reported w (onError e)
           | None => w
           end).
Proof.
  intros Hty w'.
  assert (Hanswer : get data "type" = inr (VStr "answer") ->
            w' = match peers_get w from, setRemoteDescription n with
                 | Some _, Some e => reported w (onError e)
                 | _, _ => w
                 end).
  { intros Ha. unfold w', _handleSignal, caught, try_catch. rewrite Ha.
    cbv [lift mbind M_bind read mret M_ret]. simpl.
    destruct (peers_get w from) as [[r pd]|]; simpl; [|done].
    by destruct (setRemoteDescription n). }
  assert (Hcandidate : get data "type" = inr (VStr "ice-candidate") ->
            w' = match peers_get w from, addIceCandidate n with
                 | Some _, Some e => reported w (onError e)
                 | _, _ => w
                 end).
  { intros Ha. unfold w', _handleSignal, caught, try_catch. rewrite Ha.
    cbv [lift mbind M_bind read mret M_ret]. simpl.
    destruct (peers_get w from) as [[r pd]|]; simpl; [|done].
    by destruct (addIceCandidate n). }
  assert (Hsame : exists l, w' = mkTransfer (peers w) (objects w) (connections w)
                                 (receivers w) l (listening w)).
  { destruct Hty as [Hty|Hty]; [rewrite (Hanswer Hty)|rewrite (Hcandidate Hty)];
      destruct (peers_get w from) as [[r pd]|];
      try destruct (setRemoteDescription n); try destruct (addIceCandidate n);
      try (by eexists); by (exists (log w); destruct w). }
  split_and!.
  - by destruct Hsame as (l & ->).
  - by destruct Hsame as (l & ->).
  - by destruct Hsame as (l & ->).
  - by destruct Hsame as (l & ->).
  - intros Hnone. destruct Hty as [Hty|Hty];
      [rewrite (Hanswer Hty)|rewrite (Hcandidate Hty)]; by rewrite Hnone.
  - intros Hsome Ha. rewrite (Hanswer Ha). by destruct (peers_get w from).
  - intros Hsome Ha. rewrite (Hcandidate Ha). by destruct (peers_get w from).
Qed.

(** X6.  [_handleSignal] on a message [{ from, data }] never rejects.
    When [data] is [null] or [undefined], the [TypeError] of reading
    [data.type] goes to the error callback and nothing else changes; a
    [data] whose [type] is none of the three known ones is ignored. *)
Theorem handleSignal_never_rejects (n : negotiator) (from : string)
    (data : value) (w : P2PFileTransfer) :
  fst (_handleSignal n from data w) = inr tt
  /\ (forall e, get data "type" = inl e ->
        snd (_handleSignal n from data w) = reported w (onError e))
  /\ (forall ty, get data "type" = inr ty ->
        is_str ty "offer" = false -> is_str ty "answer" = false ->
        is_str ty "ice-candidate" = false ->
        snd (_handleSignal n from data w) = w).
Proof.
  split_and!.
  - unfold _handleSignal, caught, try_catch.
    match goal with
    | |- context [match ?m with _ => _ end] => by destruct m as [[err|[]] w1]
    end.
  - intros e He. unfold _handleSignal, caught, try_catch.
    cbv [mbind M_bind]. by rewrite He.
  - intros ty Hty H1 H2 H3. unfold _handleSignal, caught, try_catch.
    cbv [mbind M_bind]. rewrite Hty. simpl. by rewrite H1, H2, H3.
Qed.

End Signalling.

Section Negotiation.

Context `{JSON}.

Lemma sendFile_willing w n P file offer :
  consistent w ->
  constructs n = None -> createOffer n = inr offer -> setLocalDescription n = None ->
  let w' := snd (sendFile n P file w) in
  log w' = log w ++ [emit P (offer_signal offer file)]
  /\ exists r pd c,
       peers w' !! P = Some r /\ objects w' !! r = Some pd
       /\ connections w' !! pc pd = Some c /\ owner c = P /\ closed c = false
       /\ last (dataChannels c) = Some (mkLocal "fileTransfer" (Some file))
       /\ (peers w !! P = None ->
           isInitiator pd = true
           /\ dataChannels c = [mkLocal "fileTransfer" (Some file)])
       /\ (forall r0, peers w !! P = Some r0 ->
           r = r0 /\ peers w' = peers w /\ objects w' = objects w).
Proof.
  intros Hw Hctor Hoffer Hlocal w'.
  destruct (getOrCreate_consistent w (constructs n) P true Hw (fun _ => Hctor))
    as (p & w1 & r & pd & c & Hget & Hr & Hpd & Hpc & Hc & Hown & Hcl & Hlog & Hnew & Hold).
  assert (Hp : (p < length (connections w1))%nat) by by eapply lookup_lt_Some.
  unfold w'. rewrite (sendFile_state n P file w w1 p c Hget Hc Hcl), Hoffer, Hlocal.
  simpl. split; [by rewrite Hlog|].
  exists r, pd, (mkPc (owner c) false (dataChannels c ++ [mkLocal "fileTransfer" (Some file)])).
  rewrite Hpc. simpl.
  split_and!; [done|done|by apply list_lookup_insert_eq|done|done|apply last_snoc| |].
  - intros HP. destruct (Hnew HP) as (-> & -> & _). done.
  - intros r0 Hr0. rewrite (Hold r0 Hr0) in *. split_and!; [congruence|done|done].
Qed.

Lemma handleSignal_offer_willing w n from fields answer :
  consistent w ->
  field "type" fields = VStr "offer" ->
  constructs n = None -> setRemoteDescription n = None ->
  createAnswer n = inr answer -> setLocalDescription n = None ->
  let w' := snd (_handleSignal n from (VObj fields) w) in
  log w' = log w ++ [emit from (answer_signal answer)]
  /\ exists r pd,
       peers w' !! from = Some r /\ objects w' !! r = Some pd
       /\ fileMetadata pd = offered_metadata fields
       /\ live w' (pc pd) from
       /\ (peers w !! from = None ->
           isInitiator pd = false /\ receivedChunks pd = [] /\ receivedBytes pd = 0)
       /\ (forall r0 pd0, peers w !! from = Some r0 -> objects w !! r0 = Some pd0 ->
           r = r0 /\ pd = set_fileMetadata (offered_metadata fields) pd0).
Proof.
  intros Hw Hty Hctor Hremote Hanswer Hlocal w'.
  destruct (getOrCreate_consistent w (constructs n) from false Hw (fun _ => Hctor))
    as (p & w1 & r & pd & c & Hget & Hr & Hpd & Hpc & Hc & Hown & Hcl & Hlog & Hnew & Hold).
  assert (Hlt : (r < length (objects w1))%nat) by by eapply lookup_lt_Some.
  unfold w'.
  rewrite (handleSignal_offer_state n from fields w w1 p r pd Hty Hget Hr Hpd),
    Hremote, Hanswer, Hlocal.
  simpl. split; [by rewrite Hlog|].
  exists r, (set_fileMetadata (offered_metadata fields) pd).
  split_and!; [done|by apply list_lookup_insert_eq|done| | |].
  - exists c. simpl. by rewrite Hpc.
  - intros HP. destruct (Hnew HP) as (-> & _ & _). done.
  - intros r0 pd0 Hr0 Hpd0. rewrite (Hold r0 Hr0) in *. by simplify_eq.
Qed.

(** X7.  In any state reached from the constructor, a [sendFile(P, file)]
    whose negotiation succeeds reports no error and emits exactly one
    signal, to [P]: the offer carrying the file's name, size and type.
    Afterwards [P] is registered with an open connection whose newest data
    channel is ['fileTransfer'] with this file; for a peer that had no entry
    the session is new, created as initiator, with this one channel; for a
    peer that had one, the registry and the objects are as before. *)
Theorem sendFile_emits_offer (evs : list event) (n : negotiator) (P : string)
    (file : File) (offer : value) :
  constructs n = None ->
  createOffer n = inr offer ->
  setLocalDescription n = None ->
  let w := after evs constructor in
  let w' := snd (sendFile n P file w) in
  log w' = log w ++ [emit P (offer_signal offer file)]
  /\ exists r pd c,
       peers w' !! P = Some r /\ objects w' !! r = Some pd
       /\ connections w' !! pc pd = Some c /\ owner c = P /\ closed c = false
       /\ last (dataChannels c) = Some (mkLocal "fileTransfer" (Some file))
       /\ (peers w !! P = None ->
           isInitiator pd = true
           /\ dataChannels c = [mkLocal "fileTransfer" (Some file)])
       /\ (forall r0, peers w !! P = Some r0 ->
           r = r0 /\ peers w' = peers w /\ objects w' = objects w).
Proof.
  intros Hctor Hoffer Hlocal w.
  apply (sendFile_willing w n P file offer); [|done..].
  apply consistent_after, consistent_constructor.
Qed.

(** X8.  In any state reached from the constructor, an offer from [from]
    whose negotiation succeeds emits exactly one signal, the answer, to
    [from], and leaves [from] registered with a live session whose metadata
    are the offer's [fileName], [fileSize] and [fileType].  A peer without
    an entry gets a fresh session, created as non-initiator, with no chunk
    received; for a peer with an entry the existing object is kept and only
    its metadata are replaced. *)
Theorem offer_stores_metadata_and_answers (evs : list event) (n : negotiator)
    (from : string) (fields : list (string * value)) (answer : value) :
  field "type" fields = VStr "offer" ->
  constructs n = None ->
  setRemoteDescription n = None ->
  createAnswer n = inr answer ->
  setLocalDescription n = None ->
  let w := after evs constructor in
  let w' := snd (_handleSignal n from (VObj fields) w) in
  log w' = log w ++ [emit from (answer_signal answer)]
  /\ exists r pd,
       peers w' !! from = Some r /\ objects w' !! r = Some pd
       /\ fileMetadata pd = offered_metadata fields
       /\ live w' (pc pd) from
       /\ (peers w !! from = None ->
           isInitiator pd = false /\ receivedChunks pd = [] /\ receivedBytes pd = 0)
       /\ (forall r0 pd0, peers w !! from = Some r0 -> objects w !! r0 = Some pd0 ->
           r = r0 /\ pd = set_fileMetadata (offered_metadata fields) pd0).
Proof.
  intros Hty Hctor Hremote Hanswer Hlocal w.
  apply (handleSignal_offer_willing w n from fields answer); [|done..].
  apply consistent_after, consistent_constructor.
Qed.

(** X9.  The offer crosses over: the signal that a successful
    [sendFile(B, file)] emits on one instance, handed to [_handleSignal] of
    another instance as coming from [A], stores there the name, size and
    type of [file] for [A], and is answered to [A]. *)
Theorem offer_carries_file_metadata (before_send before_receive : list event)
    (ns nr : negotiator) (A B : string) (file : File) (offer answer : value) :
  constructs ns = None ->
  createOffer ns = inr offer ->
  setLocalDescription ns = None ->
  constructs nr = None ->
  setRemoteDescription nr = None ->
  createAnswer nr = inr answer ->
  setLocalDescription nr = None ->
  let ws := snd (sendFile ns B file (after before_send constructor)) in
  exists data,
    last (log ws) = Some (emit B data)
    /\ let wr := snd (_handleSignal nr A data (after before_receive constructor)) in
       last (log wr) = Some (emit A (answer_signal answer))
       /\ exists r pd,
            peers wr !! A = Some r /\ objects wr !! r = Some pd
            /\ fileMetadata pd
               = VObj [("fileName", VStr (name file));
                       ("fileSize", VNum (Z.of_N (size file)));
                       ("fileType", VStr (type file))]%string.
Proof.
  intros Hctor Hoffer Hlocal Hctor' Hremote Hanswer Hlocal' ws.
  destruct (sendFile_willing (after before_send constructor) ns B file offer)
    as (Hlog & _); [apply consistent_after, consistent_constructor|done..|].
  exists (offer_signal offer file). fold ws in Hlog. rewrite Hlog, last_snoc.
  split; [done|]. intros wr.
  destruct (handleSignal_offer_willing (after before_receive constructor) nr A
              [("type", VStr "offer"); ("sdp", offer); ("fileName", VStr (name file));
               ("fileSize", VNum (Z.of_N (size file))); ("fileType", VStr (type file))]%string
              answer)
    as (Hlog' & r & pd & Hr & Hpd & Hmeta & _);
    [apply consistent_after, consistent_constructor|done..|].
  fold (offer_signal offer file) in Hlog', Hr, Hpd. fold wr in Hlog', Hr, Hpd.
  rewrite Hlog', last_snoc. split; [done|]. by exists r, pd.
Qed.

(** X10.  A [sendFile] to a peer without an entry whose [createOffer] or
    [setLocalDescription] rejects reports that error, once, and leaves
    behind what it had built by then: the peer stays registered, with an
    open connection that holds the data channel for the file.  Nothing is
    cleaned up after a failed negotiation. *)
Theorem failed_offer_leaves_session (n : negotiator) (P : string) (file : File)
    (w : P2PFileTransfer) (e : error) :
  peers w !! P = None ->
  constructs n = None ->
  createOffer n = inl e
  \/ (exists offer, createOffer n = inr offer /\ setLocalDescription n = Some e) ->
  let w' := snd (sendFile n P file w) in
  log w' = log w ++ [onError e]
  /\ peers w' = <[P := length (objects w)]> (peers w)
  /\ objects w' = objects w ++ [mkPeerData (length (connections w)) true [] 0 VNull]
  /\ connections w'
     = connections w ++ [mkPc P false [mkLocal "fileTransfer" (Some file)]]
  /\ live w' (length (connections w)) P.
Proof.
  intros HP Hctor Hfail w'.
  assert (Hget : _getOrCreatePeerConnection (constructs n) P true w
                 = (inr (length (connections w)),
                    mkTransfer (<[P := length (objects w)]> (peers w))
                      (objects w ++ [mkPeerData (length (connections w)) true [] 0 VNull])
                      (connections w ++ [mkPc P false []])
                      (receivers w) (log w) (listening w)))
    by by rewrite getOrCreate_state, HP, Hctor.
  assert (Hconn : <[length (connections w) :=
                     mkPc P false [mkLocal "fileTransfer" (Some file)]]>
                    (connections w ++ [mkPc P false []])
                  = connections w ++ [mkPc P false [mkLocal "fileTransfer" (Some file)]]).
  { rewrite <- (Nat.add_0_r (length (connections w))) at 1.
    by rewrite insert_app_r. }
  assert (Hw' : w' = reported
            (mkTransfer (<[P := length (objects w)]> (peers w))
               (objects w ++ [mkPeerData (length (connections w)) true [] 0 VNull])
               (connections w ++ [mkPc P false [mkLocal "fileTransfer" (Some file)]])
               (receivers w) (log w) (listening w)) (onError e)).
  { unfold w'.
    rewrite (sendFile_state n P file w _ _ (mkPc P false []) Hget);
      [|by apply list_lookup_middle|done].
    simpl. rewrite Hconn.
    destruct Hfail as [->|(offer & -> & ->)]; done. }
  rewrite Hw'. simpl. split_and!; [done..|].
  eexists. split; [by apply list_lookup_middle|done].
Qed.

End Negotiation.

(** ** Sessions: connection events and the receiving channel *)

#[local] Instance extends_preorder : PreOrder extends.
Proof.
  split.
  - intros pd. by split_and!.
  - intros pd1 pd2 pd3 (H1 & H2 & H3) (H1' & H2' & H3').
    split_and!; [congruence|congruence|by etransitivity].
Qed.

Lemma total_byteLength_concat chunks : total_byteLength chunks = len (concat chunks).
Proof.
  induction chunks as [|b chunks IH]; simpl; [done|]. by rewrite IH, len_app.
Qed.

Lemma cleanupPeer_gone w P :
  consistent w ->
  peers (snd (_cleanupPeer P w)) !! P = None
  /\ forall p, ~ live (snd (_cleanupPeer P w)) p P.
Proof.
  intros Hw.
  assert (HP : peers (snd (_cleanupPeer P w)) !! P = None).
  { rewrite cleanupPeer_state.
    destruct (peers_get w P) as [[r pd]|] eqn:Hget; simpl.
    - apply lookup_delete_eq.
    - by apply consistent_get_None. }
  split; [done|]. intros p. apply consistent_no_entry; [|done].
  by apply consistent_cleanupPeer.
Qed.

Section Sessions.

Context `{JSON}.

(** X11.  A connection-state change of a connection made for peer [P] is
    always reported, once, through the state callback, whatever the state,
    and through no other callback.  For ['disconnected'], ['failed'] and
    ['closed'] the session of [P] is then torn down: no entry and no live
    session of [P] remain.  For every other state the registry and the
    connections are unchanged. *)
Theorem connection_state_teardown (evs : list event) (p : nat)
    (c : RTCPeerConnection) (state : string) :
  let w := after evs constructor in
  connections w !! p = Some c ->
  let w' := handle w (connectionstatechange p state) in
  log w' = log w ++ [onConnectionStateChange (owner c) state]
  /\ objects w' = objects w
  /\ (state = "disconnected"%string \/ state = "failed"%string
      \/ state = "closed"%string ->
      peers w' !! owner c = None /\ forall q, ~ live w' q (owner c))
  /\ (state <> "disconnected"%string -> state <> "failed"%string ->
      state <> "closed"%string ->
      peers w' = peers w /\ connections w' = connections w).
Proof.
  intros w Hc w'.
  assert (Hw : consistent w) by apply consistent_after, consistent_constructor.
  set (w1 := reported w (onConnectionStateChange (owner c) state)).
  assert (Hw1 : consistent w1) by (by apply (consistent_call _ w)).
  assert (Hw' : w' = if (String.eqb state "disconnected" || String.eqb state "failed"
                         || String.eqb state "closed")%string
                     then snd (_cleanupPeer (owner c) w1) else w1).
  { unfold w', handle, task, onconnectionstatechange. cbv [mbind M_bind read].
    rewrite Hc. simpl. fold w1. by destruct (_ || _). }
  split_and!.
  - rewrite Hw'. destruct (_ || _); [|done]. rewrite cleanupPeer_state.
    by destruct (peers_get w1 (owner c)) as [[r pd]|].
  - rewrite Hw'. destruct (_ || _); [|done]. rewrite cleanupPeer_state.
    by destruct (peers_get w1 (owner c)) as [[r pd]|].
  - intros Hstate. rewrite Hw'.
    replace (String.eqb state "disconnected" || String.eqb state "failed"
             || String.eqb state "closed")%string with true.
    + by apply cleanupPeer_gone.
    + symmetry. destruct Hstate as [-> | [-> | ->]]; reflexivity.
  - intros H1 H2 H3. rewrite Hw'.
    apply String.eqb_neq in H1, H2, H3. by rewrite H1, H2, H3.
Qed.

Lemma task_binary_early w i r P pd chunk :
  receivers w !! i = Some (mkReceiver (Some r) P) ->
  objects w !! r = Some pd ->
  truthy (fileMetadata pd) = false ->
  task (channel_message i (Binary chunk)) w
  = (inr tt, mkTransfer (peers w) (<[r := push chunk pd]> (objects w)) (connections w)
                        (receivers w) (log w) (listening w)).
Proof.
  intros Hi Hr Hmeta. unfold task. unfold mbind at 1, M_bind, read.
  rewrite Hi. unfold onmessage. unfold mbind at 1, M_bind.
  rewrite update_state. simpl. rewrite Hr. simpl. by rewrite Hmeta.
Qed.

(** X12.  A binary chunk that arrives while the session has no metadata is
    stored and counted without any callback; once a metadata frame has
    arrived, the progress report of the next chunk counts the early chunk
    too. *)
Theorem early_chunk_is_buffered_silently (w : P2PFileTransfer) (i r : nat)
    (P : string) (pd : peerData) (a b : list byte) (m : string) (v : value) :
  receivers w !! i = Some (mkReceiver (Some r) P) ->
  objects w !! r = Some pd ->
  truthy (fileMetadata pd) = false ->
  JSON_parse m = Some v ->
  get v "type" = inr (VStr "metadata") ->
  let w1 := handle w (channel_message i (Binary a)) in
  let w2 := after [channel_message i (Text m); channel_message i (Binary b)] w1 in
  task (channel_message i (Binary a)) w = (inr tt, w1)
  /\ log w1 = log w
  /\ objects w1 !! r = Some (push a pd)
  /\ exists total,
       get v "fileSize" = inr total
       /\ log w2 = log w ++ [onProgress (receivedBytes pd + len a + len b) total]
       /\ objects w2 !! r = Some (push b (set_fileMetadata v (push a pd))).
Proof.
  intros Hi Hr Hmeta Hm Hty w1 w2.
  assert (Hlt : (r < length (objects w))%nat) by by eapply lookup_lt_Some.
  pose proof (task_binary_early w i r P pd a Hi Hr Hmeta) as Htask.
  assert (Hw1 : w1 = mkTransfer (peers w) (<[r := push a pd]> (objects w)) (connections w)
                        (receivers w) (log w) (listening w))
    by (unfold w1, handle; by rewrite Htask).
  assert (Hv : truthy v = true) by (destruct v; simpl in *; by simplify_eq).
  destruct (truthy_get v "fileSize" Hv) as (total & Htotal).
  split_and!; [by rewrite Hw1|by rewrite Hw1|rewrite Hw1; by apply list_lookup_insert_eq|].
  exists total. split; [done|].
  unfold w2, after. simpl foldl.
  rewrite (handle_metadata w1 i r P (push a pd) m v);
    [|by rewrite Hw1|rewrite Hw1; by apply list_lookup_insert_eq|done|done].
  erewrite (handle_binary _ i r P (set_fileMetadata v (push a pd)) b total);
    [|by rewrite Hw1| |done|done].
  2: { simpl. apply list_lookup_insert_eq. rewrite Hw1. simpl.
       by rewrite length_insert. }
  simpl. rewrite Hw1. simpl. split; [done|].
  apply list_lookup_insert_eq. by rewrite !length_insert.
Qed.

(** X13.  In any state reached from the constructor, an end frame for a
    registered peer with metadata completes the transfer: the completion
    callback is invoked once, with the peer id, the stored file name and a
    blob of the stored file type whose bytes are all the chunks received, in
    order, and whose size is the session's [receivedBytes], whatever size
    was announced.  The session is then gone, and a second end frame on the
    channel changes nothing. *)
Theorem end_frame_completes_once (evs : list event) (i : nat) (rx : receiver)
    (r : nat) (pd : peerData) (s : string) (v : value) :
  let w := after evs constructor in
  receivers w !! i = Some rx ->
  peers w !! rx_peerId rx = Some r ->
  objects w !! r = Some pd ->
  JSON_parse s = Some v ->
  get v "type" = inr (VStr "end") ->
  truthy (fileMetadata pd) = true ->
  let w' := handle w (channel_message i (Text s)) in
  exists blob fileName,
    log w' = log w ++ [onComplete blob fileName (rx_peerId rx)]
    /\ blob_bytes blob = concat (receivedChunks pd)
    /\ blob_size blob = receivedBytes pd
    /\ get (fileMetadata pd) "fileName" = inr fileName
    /\ get (fileMetadata pd) "fileType" = inr (blob_type blob)
    /\ peers w' !! rx_peerId rx = None
    /\ (forall q, ~ live w' q (rx_peerId rx))
    /\ handle w' (channel_message i (Text s)) = w'.
Proof.
  intros w Hi HP Hr Hs Hty Hmeta w'.
  assert (Hw : consistent w) by apply consistent_after, consistent_constructor.
  assert (Hw' : consistent w') by by apply consistent_task.
  assert (Hcounted : counted pd)
    by (eapply Forall_lookup_1; [apply (counted_after evs)|exact Hr]).
  destruct (truthy_get (fileMetadata pd) "fileType" Hmeta) as (fileType & HfT).
  destruct (truthy_get (fileMetadata pd) "fileName" Hmeta) as (fileName & HfN).
  pose proof (handle_end w i rx r pd s v fileType fileName Hi HP Hr Hs Hty Hmeta HfT HfN)
    as Hend. fold w' in Hend.
  assert (Hgone : peers w' !! rx_peerId rx = None)
    by (rewrite Hend; apply lookup_delete_eq).
  exists (new_Blob (receivedChunks pd) fileType), fileName.
  split_and!; [by rewrite Hend|done| |done|done|done| |].
  - unfold blob_size. simpl. rewrite Hcounted. symmetry. apply total_byteLength_concat.
  - intros q. by apply consistent_no_entry.
  - unfold handle, task. cbv [mbind M_bind read].
    replace (receivers w' !! i) with (Some rx) by (by rewrite Hend).
    unfold onmessage. rewrite Hs, Hty.
    cbv [lift mbind M_bind mret M_ret]. simpl.
    unfold _assembleFile. cbv [mbind M_bind read].
    unfold peers_get. by rewrite Hgone.
Qed.

Lemma extends_task ev w : along extends (objects w) (objects (handle w ev)).
Proof.
  revert w. apply (objects_task (along extends)).
  - intros os p b. apply (along_fresh extends).
  - intros chunk os r pd Hr. apply (along_insert extends os r pd); [done|].
    split_and!; [done|done|]. by apply prefix_app_r.
  - intros _ v os r pd Hr. by apply (along_insert extends os r pd).
Qed.

(** X14.  Over any run of tasks a [peerData] object keeps its connection
    and its role, and its received chunks are only ever appended to: what
    was received stays, in the same order, also after completion, teardown
    or [destroy]. *)
Theorem chunks_are_only_appended (evs : list event) (w : P2PFileTransfer)
    (r : nat) (pd : peerData) :
  objects w !! r = Some pd ->
  exists pd',
    objects (after evs w) !! r = Some pd'
    /\ pc pd' = pc pd
    /\ isInitiator pd' = isInitiator pd
    /\ receivedChunks pd `prefix_of` receivedChunks pd'.
Proof.
  revert w pd. induction evs as [|ev evs IH]; intros w pd Hr.
  - exists pd. by split_and!.
  - destruct (extends_task ev w r pd Hr) as (pd1 & Hr1 & H1 & H2 & H3).
    destruct (IH (handle w ev) pd1 Hr1) as (pd' & Hr' & H1' & H2' & H3').
    exists pd'. split_and!; [done|congruence|congruence|by etransitivity].
Qed.

Lemma handle_binary_state w i r P pd chunk :
  receivers w !! i = Some (mkReceiver (Some r) P) ->
  objects w !! r = Some pd ->
  exists l,
    handle w (channel_message i (Binary chunk))
    = mkTransfer (peers w) (<[r := push chunk pd]> (objects w)) (connections w)
                 (receivers w) l (listening w).
Proof.
  intros Hi Hr. destruct (truthy (fileMetadata pd)) eqn:Hmeta.
  - destruct (truthy_get (fileMetadata pd) "fileSize" Hmeta) as (total & Htotal).
    eexists. by apply (handle_binary w i r P pd chunk total).
  - exists (log w). unfold handle. by rewrite (task_binary_early w i r P pd chunk).
Qed.

Lemma handle_datachannel w p c :
  connections w !! p = Some c ->
  handle w (datachannel p)
  = mkTransfer (peers w) (objects w) (connections w)
               (receivers w ++ [mkReceiver (peers w !! owner c) (owner c)])
               (log w) (listening w).
Proof.
  intros Hc. unfold handle, task, _setupDataChannel_receiver.
  cbv [mbind M_bind read set_receivers]. by rewrite Hc.
Qed.

(** X15.  Two data channels arriving on the same connection capture the
    same [peerData] object: a chunk on the first and a chunk on the second
    end up, in order of arrival, in one [receivedChunks], counted by one
    [receivedBytes]. *)
Theorem channels_of_one_session_share_buffer (w : P2PFileTransfer) (p : nat)
    (c : RTCPeerConnection) (r : nat) (pd : peerData) (a b : list byte) :
  connections w !! p = Some c ->
  peers w !! owner c = Some r ->
  objects w !! r = Some pd ->
  let i := length (receivers w) in
  let w' := after [datachannel p; datachannel p;
                   channel_message i (Binary a); channel_message (S i) (Binary b)] w in
  exists pd',
    objects w' !! r = Some pd'
    /\ receivedChunks pd' = receivedChunks pd ++ [a; b]
    /\ receivedBytes pd' = receivedBytes pd + len a + len b.
Proof.
  intros Hc HP Hr i w'.
  assert (Hlt : (r < length (objects w))%nat) by by eapply lookup_lt_Some.
  set (rx := mkReceiver (Some r) (owner c)).
  assert (Hw2 : after [datachannel p; datachannel p] w
                = mkTransfer (peers w) (objects w) (connections w)
                             (receivers w ++ [rx; rx]) (log w) (listening w)).
  { unfold after. simpl foldl. rewrite (handle_datachannel w p c Hc).
    rewrite (handle_datachannel _ p c) by done. simpl.
    by rewrite HP, <- app_assoc. }
  unfold w'.
  change (after [?e1; ?e2; ?e3; ?e4] w) with (handle (handle (after [e1; e2] w) e3) e4).
  set (w2 := after [datachannel p; datachannel p] w) in *.
  destruct (handle_binary_state w2 i r (owner c) pd a) as (l3 & Hw3).
  { rewrite Hw2. simpl. by apply list_lookup_middle. }
  { by rewrite Hw2. }
  rewrite Hw3.
  destruct (handle_binary_state (mkTransfer (peers w2) (<[r := push a pd]> (objects w2))
              (connections w2) (receivers w2) l3 (listening w2))
              (S i) r (owner c) (push a pd) b) as (l4 & Hw4).
  { rewrite Hw2. simpl.
    rewrite lookup_app_r by (unfold i; lia).
    by replace (S i - length (receivers w))%nat with 1%nat by (unfold i; lia). }
  { rewrite Hw2. simpl. by apply list_lookup_insert_eq. }
  rewrite Hw4. simpl.
  exists (push b (push a pd)). split_and!.
  - apply list_lookup_insert_eq. rewrite Hw2. simpl. by rewrite length_insert.
  - simpl. by rewrite <- app_assoc.
  - done.
Qed.

(** X16.  When [channel.onmessage] of a receiver throws, the instance is
    left exactly as it was and no callback has been invoked, the error
    callback included.  It throws in three cases only: a text that
    [JSON.parse] rejects; a parsed text whose [type] cannot be read ([null]);
    a metadata frame or a binary chunk on a channel that captured no
    [peerData]. *)
Theorem receive_errors_are_not_reported (w w' : P2PFileTransfer) (i : nat)
    (data : message) (e : error) :
  task (channel_message i data) w = (inl e, w') ->
  w' = w
  /\ exists rx,
       receivers w !! i = Some rx
       /\ match data with
          | Text s =>
              (JSON_parse s = None /\ e = SyntaxError)
              \/ (exists v, JSON_parse s = Some v /\ get v "type" = inl e
                            /\ e = TypeError)
              \/ (exists v, JSON_parse s = Some v
                    /\ get v "type" = inr (VStr "metadata")
                    /\ rx_peerData rx ≫= (objects w !!.) = None /\ e = TypeError)
          | Binary _ => rx_peerData rx ≫= (objects w !!.) = None /\ e = TypeError
          end.
Proof.
  unfold task. unfold mbind at 1, M_bind, read.
  destruct (receivers w !! i) as [rx|] eqn:Hi; [|done].
  unfold onmessage. destruct data as [s|chunk].
  - destruct (JSON_parse s) as [v|] eqn:Hs.
    2: { intros [= <- <-]. split; [done|]. exists rx. split; [done|]. by left. }
    destruct (get v "type") as [e0|ty] eqn:Hty.
    { cbv [lift mbind M_bind throw]. intros [= <- <-]. split; [done|].
      exists rx. split; [done|]. right; left. exists v. split_and!; [done|done|].
      destruct v; simpl in Hty; by simplify_eq. }
    cbv [lift mbind M_bind mret M_ret]. simpl.
    destruct (is_str ty "metadata") eqn:Hmeta.
    + rewrite update_state.
      destruct (rx_peerData rx ≫= (objects w !!.)) as [pd|] eqn:Hpd; [done|].
      intros [= <- <-]. split; [done|]. exists rx. split; [done|]. right; right.
      exists v. split_and!; [done| |done|done].
      destruct ty; simpl in Hmeta; try done. by apply String.eqb_eq in Hmeta as ->.
    + destruct (is_str ty "end"); [|done].
      unfold _assembleFile. cbv [mbind M_bind read].
      destruct (peers_get w (rx_peerId rx)) as [[r pd]|]; [|done].
      destruct (truthy (fileMetadata pd)) eqn:Htr; [|done]. simpl.
      destruct (truthy_get (fileMetadata pd) "fileType" Htr) as (fT & ->).
      destruct (truthy_get (fileMetadata pd) "fileName" Htr) as (fN & ->).
      simpl. cbv [call]. simpl. by rewrite cleanupPeer_run.
  - unfold mbind at 1, M_bind. rewrite update_state.
    destruct (rx_peerData rx ≫= (objects w !!.)) as [pd|] eqn:Hpd.
    + destruct (truthy (fileMetadata (push chunk pd))) eqn:Htr; [|done].
      destruct (truthy_get _ "fileSize" Htr) as (total & ->). done.
    + intros [= <- <-]. split; [done|]. by exists rx.
Qed.

End Sessions.

(** ** What is emitted *)

Section Signals.

Context `{JSON}.



Lemma signals_same {A} (m : M A) :
  (forall w, log (snd (m w)) = log w) -> respects (keeps wellformed_log) m.
Proof. intros Hm w Hw. unfold wellformed_log. by rewrite Hm. Qed.

Lemma signals_call e : wellformed_signal e -> respects (keeps wellformed_log) (call e).
Proof. intros He w Hw. apply Forall_app. split; [done|by constructor]. Qed.

Lemma signals_cleanupPeer P : respects (keeps wellformed_log) (_cleanupPeer P).
Proof.
  apply signals_same. intros w. rewrite cleanupPeer_state.
  by destruct (peers_get w P) as [[r pd]|].
Qed.

Lemma signals_getOrCreate ctor P b :
  respects (keeps wellformed_log) (_getOrCreatePeerConnection ctor P b).
Proof.
  apply signals_same. intros w. rewrite getOrCreate_state.
  destruct (peers w !! P) as [r|]; [by destruct (objects w !! r)|]. by destruct ctor.
Qed.

Lemma signals_createDataChannel p l : respects (keeps wellformed_log) (createDataChannel p l).
Proof.
  apply signals_same. intros w. rewrite createDataChannel_state.
  destruct (connections w !! p) as [c|]; [|done]. by destruct (closed c).
Qed.

Lemma signals_setupDataChannel_sender p d f :
  respects (keeps wellformed_log) (_setupDataChannel_sender p d f).
Proof.
  apply signals_same. intros w. rewrite setupDataChannel_sender_state.
  by destruct (connections w !! p).
Qed.

Lemma signals_update captured f : respects (keeps wellformed_log) (update captured f).
Proof.
  apply signals_same. intros w. rewrite update_state.
  by destruct (captured ≫= (objects w !!.)).
Qed.

Lemma signals_task ev : respects (keeps wellformed_log) (task ev).
Proof.
  destruct ev; unfold_tasks;
    try (repeat (intros; first
      [ apply signals_call; (exact I || (left; reflexivity)
                             || (right; left; reflexivity))
      | by apply signals_same
      | apply signals_cleanupPeer | apply signals_getOrCreate
      | apply signals_createDataChannel | apply signals_setupDataChannel_sender
      | apply signals_update
      | respects_structure ]); fail).
  (* [pc.onicecandidate] *)
  intros w Hw. cbv [mbind M_bind read].
  destruct (connections w !! p) as [c|]; [|done].
  destruct (truthy candidate) eqn:Hc; [|done].
  apply signals_call; [|done]. right; right. split; [done|]. by exists candidate.
Qed.

(** X17.  Every signal the instance has emitted, in any state reached from
    the constructor, is an offer, an answer or an ice-candidate whose
    candidate is not falsy: the end-of-candidates event, a null candidate,
    is never forwarded. *)
Theorem emitted_signals_are_wellformed (evs : list event) :
  Forall wellformed_signal (log (after evs constructor)).
Proof.
  induction evs as [|ev evs IH] using rev_ind; [by constructor|].
  rewrite after_app. exact (signals_task ev _ IH).
Qed.

End Signals.

(** ** Connections over time *)

#[local] Instance ages_preorder : PreOrder ages.
Proof.
  split.
  - intros c. by split_and!.
  - intros c1 c2 c3 (H1 & H2 & H3) (H1' & H2' & H3').
    split_and!; [congruence|tauto|lia].
Qed.

#[local] Instance connections_age_preorder : PreOrder connections_age.
Proof.
  split.
  - intros w p c Hc. exists c. split; [done|reflexivity].
  - intros w1 w2 w3 H12 H23 p c Hc.
    destruct (H12 p c Hc) as (c2 & Hc2 & Ha2).
    destruct (H23 p c2 Hc2) as (c3 & Hc3 & Ha3).
    exists c3. split; [done|by etransitivity].
Qed.

Lemma age_same {A} (m : M A) :
  (forall w, connections (snd (m w)) = connections w) -> respects connections_age m.
Proof. intros Hm w p c Hc. exists c. rewrite Hm. split; [done|reflexivity]. Qed.

Lemma age_insert w p c c' :
  connections w !! p = Some c -> ages c c' ->
  connections_age w (mkTransfer (peers w) (objects w) (<[p := c']> (connections w))
                                (receivers w) (log w) (listening w)).
Proof.
  intros Hc Ha q c0 Hc0. simpl. destruct (decide (p = q)) as [<-|Hne].
  - exists c'. simplify_eq. split; [|done].
    apply list_lookup_insert_eq. by eapply lookup_lt_Some.
  - exists c0. rewrite list_lookup_insert_ne by done. split; [done|reflexivity].
Qed.

Lemma age_cleanupPeer P : respects connections_age (_cleanupPeer P).
Proof.
  intros w. rewrite cleanupPeer_state.
  destruct (peers_get w P) as [[r pd]|]; [|reflexivity].
  intros q c Hc. simpl. destruct (decide (pc pd = q)) as [<-|Hne].
  - exists (close c). rewrite list_lookup_alter_eq, Hc. split; [done|].
    by split_and!.
  - exists c. rewrite list_lookup_alter_ne by done. split; [done|reflexivity].
Qed.

Lemma age_getOrCreate ctor P b :
  respects connections_age (_getOrCreatePeerConnection ctor P b).
Proof.
  intros w. rewrite getOrCreate_state.
  destruct (peers w !! P) as [r|]; [destruct (objects w !! r); reflexivity|].
  destruct ctor; [reflexivity|].
  intros q c Hc. exists c. simpl. split; [by apply lookup_app_l_Some|reflexivity].
Qed.

Lemma age_createDataChannel p l : respects connections_age (createDataChannel p l).
Proof.
  intros w. rewrite createDataChannel_state.
  destruct (connections w !! p) as [c|] eqn:Hc; [|reflexivity].
  destruct (closed c) eqn:Hcl; [reflexivity|]. simpl.
  apply (age_insert w p c); [done|].
  split_and!; [done|by rewrite Hcl|simpl; rewrite length_app; lia].
Qed.

Lemma age_setupDataChannel_sender p d f :
  respects connections_age (_setupDataChannel_sender p d f).
Proof.
  intros w. rewrite setupDataChannel_sender_state.
  destruct (connections w !! p) as [c|] eqn:Hc; [|reflexivity]. simpl.
  apply (age_insert w p c); [done|].
  split_and!; [done|done|simpl; by rewrite length_alter].
Qed.

Section Lifecycle.

Context `{JSON}.

Lemma age_task ev : respects connections_age (task ev).
Proof.
  destruct ev; unfold_tasks;
    repeat (intros; first
      [ apply age_cleanupPeer | apply age_getOrCreate
      | apply age_createDataChannel | apply age_setupDataChannel_sender
      | by apply age_same
      | apply age_same; intros ?; rewrite update_state;
        by destruct (_ ≫= _)
      | respects_structure ]).
Qed.

(** X18.  Over any run of tasks a connection keeps its peer, loses no data
    channel, and once closed stays closed: no task reopens a connection. *)
Theorem closed_connections_stay_closed (evs : list event) (w : P2PFileTransfer)
    (p : nat) (c : RTCPeerConnection) :
  connections w !! p = Some c ->
  exists c',
    connections (after evs w) !! p = Some c'
    /\ owner c' = owner c
    /\ (closed c = true -> closed c' = true)
    /\ (length (dataChannels c) <= length (dataChannels c'))%nat.
Proof.
  revert w c. induction evs as [|ev evs IH]; intros w c Hc.
  - exists c. by split_and!.
  - destruct (age_task ev w p c Hc) as (c1 & Hc1 & H1 & H2 & H3).
    destruct (IH (handle w ev) c1 Hc1) as (c' & Hc' & H1' & H2' & H3').
    exists c'. split_and!; [done|congruence|tauto|lia].
Qed.

(** X19.  In any state reached from the constructor, a binary chunk on a
    session with metadata is reported once through the progress callback,
    with the byte length of everything received so far, this chunk included,
    and the announced file size; the registry and the connections are
    unchanged. *)
Theorem receiver_progress_counts_bytes (evs : list event) (i r : nat) (P : string)
    (pd : peerData) (chunk : list byte) :
  let w := after evs constructor in
  receivers w !! i = Some (mkReceiver (Some r) P) ->
  objects w !! r = Some pd ->
  truthy (fileMetadata pd) = true ->
  let w' := handle w (channel_message i (Binary chunk)) in
  exists total,
    get (fileMetadata pd) "fileSize" = inr total
    /\ log w' = log w ++ [onProgress (len (concat (receivedChunks pd ++ [chunk]))) total]
    /\ peers w' = peers w /\ connections w' = connections w.
Proof.
  intros w Hi Hr Hmeta w'.
  assert (Hcounted : counted pd)
    by (eapply Forall_lookup_1; [apply (counted_after evs)|exact Hr]).
  destruct (truthy_get (fileMetadata pd) "fileSize" Hmeta) as (total & Htotal).
  exists total. split; [done|].
  unfold w'. rewrite (handle_binary w i r P pd chunk total Hi Hr Hmeta Htotal). simpl.
  split_and!; [|done|done].
  rewrite concat_app, len_app. simpl. rewrite app_nil_r.
  by rewrite Hcounted, total_byteLength_concat.
Qed.

End Lifecycle.

(** * The claims on concrete inputs *)

(** C1 on [small_file] with chunk size 2: the chunks are [1 2], [3 4], [5]. *)
Lemma chunk_roundtrip_witness :
  let J := demo_JSON small_file in
  let c := mkChannel open 0 [] in
  let ts := replicate 11 (mkTransport 0 open) in
  0 < 2
  /\ ready c = open
  /\ sent c = []
  /\ Forall (fun t => state t = open) ts
  /\ (2 * length (bytes small_file) + 1 <= length ts)%nat
  /\ JSON_parse (JSON_stringify (metadata_frame small_file))
     = Some (metadata_frame small_file)
  /\ JSON_parse (JSON_stringify end_frame) = Some end_frame
  /\ exists chunks last progress,
       let s := run 2 ts (_sendFileInChunks 2 c small_file) in
       next s = idle
       /\ sent (channel s)
          = Text (JSON_stringify (metadata_frame small_file))
            :: (Binary <$> chunks ++ [last]) ++ [Text (JSON_stringify end_frame)]
       /\ Forall (fun b => len b = 2) chunks
       /\ len last <= 2
       /\ blob_bytes (new_Blob (chunks ++ [last]) (VStr (type small_file)))
          = bytes small_file
       /\ log (after (channel_message 0 <$> sent (channel s))
                     (receiver_ready "alice" small_file))
          = progress ++ [onComplete (mkBlob (bytes small_file) (VStr (type small_file)))
                                    (VStr (name small_file)) "alice"]
       /\ Forall (fun e => exists done total, e = onProgress done total) progress.
Proof.
  intros J c ts.
  assert (H1 : 0 < 2) by reflexivity.
  assert (H2 : ready c = open) by reflexivity.
  assert (H3 : sent c = []) by reflexivity.
  assert (H4 : Forall (fun t => state t = open) ts) by (repeat constructor).
  assert (H5 : (2 * length (bytes small_file) + 1 <= length ts)%nat) by (simpl; lia).
  assert (H6 : JSON_parse (JSON_stringify (metadata_frame small_file))
               = Some (metadata_frame small_file)) by reflexivity.
  assert (H7 : JSON_parse (JSON_stringify end_frame) = Some end_frame) by reflexivity.
  split_and!; [exact H1|exact H2|exact H3|exact H4|exact H5|exact H6|exact H7|].
  exact (chunk_roundtrip (H := J) 2 small_file c ts "alice" H1 H2 H3 H4 H5 H6 H7).
Defined.

(** C2 as stated fails: with the chunk size of the constructor, a file of
    twelve chunks and a receiver that takes nothing off the queue, the
    channel ends up holding more than ten chunk sizes plus one chunk. *)
Lemma backpressure_bound_exceeded :
  let J := demo_JSON large_file in
  let ts := replicate 30 (mkTransport 0 open) in
  let s := run default_chunkSize ts
               (_sendFileInChunks default_chunkSize (mkChannel open 0 []) large_file) in
  Forall (fun t => drained t = 0) ts
  /\ next s = idle
  /\ bufferedAmount (channel s) = 196619
  /\ 10 * default_chunkSize + default_chunkSize < bufferedAmount (channel s).
Proof.
  intros J ts s. split; [repeat constructor|].
  vm_compute. by split_and!.
Qed.

(** C2, amended, on [small_file] with chunk size 2. *)
Lemma backpressure_delays_only_witness :
  let J := demo_JSON small_file in
  let c := mkChannel open 0 [] in
  let s := _sendFileInChunks 2 c small_file in
  let t := mkTransport 0 open in
  let ts := replicate 11 (mkTransport 0 open) in
  next s = reading [x01; x02]
  /\ state t = open
  /\ offset s + len [x01; x02] < size (file s)
  /\ ready c = open
  /\ 0 < 2
  /\ Forall (fun t => drained t = 0 /\ state t = open) ts
  /\ (2 * length (bytes small_file) + 1 <= length ts)%nat
  /\ sent (channel (step 2 t s)) = sent (channel s) ++ [Binary [x01; x02]]
  /\ next (step 2 t s) = reading [x03; x04]
  /\ bufferedAmount (channel (run 2 ts (_sendFileInChunks 2 c small_file)))
     = 0 + 8 + 5 + 3.
Proof.
  intros J c s t ts.
  assert (H1 : next s = reading [x01; x02]) by reflexivity.
  assert (H2 : state t = open) by reflexivity.
  assert (H3 : offset s + len [x01; x02] < size (file s)) by reflexivity.
  assert (H4 : ready c = open) by reflexivity.
  assert (H5 : 0 < 2) by reflexivity.
  assert (H6 : Forall (fun t => drained t = 0 /\ state t = open) ts)
    by (repeat constructor).
  assert (H7 : (2 * length (bytes small_file) + 1 <= length ts)%nat) by (simpl; lia).
  destruct (backpressure_delays_only (H := J) 2 s [x01; x02] t small_file c ts
              H1 H2 H3 H4 H5 H6 H7) as (Hsent & _ & Hnext & _ & Htotal).
  split_and!; [exact H1|exact H2|exact H3|exact H4|exact H5|exact H6|exact H7
              |exact Hsent|exact Hnext|exact Htotal].
Defined.

(** C10 on [small_file]: the channel is closed when the first read
    completes. *)
Lemma closed_channel_halts_sender_witness :
  let J := demo_JSON small_file in
  let s := _sendFileInChunks 2 (mkChannel open 0 []) small_file in
  let t := mkTransport 0 Sender.closed in
  let ts := replicate 5 (mkTransport 0 open) in
  next s = reading [x01; x02]
  /\ state t <> open
  /\ next (run 2 (t :: ts) s) = idle
  /\ sent (channel (run 2 (t :: ts) s)) = sent (channel s)
  /\ calls (run 2 (t :: ts) s) = calls s
  /\ offset (run 2 (t :: ts) s) = offset s.
Proof.
  intros J s t ts.
  assert (H1 : next s = reading [x01; x02]) by reflexivity.
  assert (H2 : state t <> open) by discriminate.
  split; [exact H1|]. split; [exact H2|].
  exact (closed_channel_halts_sender (H := J) 2 s [x01; x02] t ts H1 H2).
Defined.

(** C5 as stated fails: for the empty file a binary message stands between
    the metadata frame and the end frame. *)
Lemma empty_file_sends_a_chunk :
  let J := demo_JSON empty_file in
  let s := run default_chunkSize [mkTransport 0 open]
               (_sendFileInChunks default_chunkSize (mkChannel open 0 []) empty_file) in
  size empty_file = 0
  /\ sent (channel s) = [Text "metadata"; Binary []; Text "end"]
  /\ binaries (sent (channel s)) <> [].
Proof. intros J s. by split_and!. Qed.

(** C5, amended, on [empty_file]. *)
Lemma empty_file_sends_one_empty_chunk_witness :
  let J := demo_JSON empty_file in
  let c := mkChannel open 0 [] in
  let t := mkTransport 0 open in
  let s := run default_chunkSize [t] (_sendFileInChunks default_chunkSize c empty_file) in
  bytes empty_file = []
  /\ ready c = open
  /\ sent c = []
  /\ state t = open
  /\ JSON_parse (JSON_stringify (metadata_frame empty_file))
     = Some (metadata_frame empty_file)
  /\ JSON_parse (JSON_stringify end_frame) = Some end_frame
  /\ sent (channel s)
     = [Text (JSON_stringify (metadata_frame empty_file)); Binary [];
        Text (JSON_stringify end_frame)]
  /\ calls s = [onProgress 0 (VNum 0)]
  /\ next s = idle
  /\ log (after (channel_message 0 <$> sent (channel s))
                (receiver_ready "alice" empty_file))
     = [onProgress 0 (VNum 0);
        onComplete (mkBlob [] (VStr (type empty_file))) (VStr (name empty_file))
                   "alice"]
  /\ blob_size (mkBlob [] (VStr (type empty_file))) = 0.
Proof.
  intros J c t s.
  assert (H1 : bytes empty_file = []) by reflexivity.
  assert (H2 : ready c = open) by reflexivity.
  assert (H3 : sent c = []) by reflexivity.
  assert (H4 : state t = open) by reflexivity.
  assert (H5 : JSON_parse (JSON_stringify (metadata_frame empty_file))
               = Some (metadata_frame empty_file)) by reflexivity.
  assert (H6 : JSON_parse (JSON_stringify end_frame) = Some end_frame) by reflexivity.
  split_and!; [exact H1|exact H2|exact H3|exact H4|exact H5|exact H6|..];
    apply (empty_file_sends_one_empty_chunk (H := J) default_chunkSize empty_file
             c t [] "alice" H1 H2 H3 H4 H5 H6).
Defined.

(** C3 as stated fails: we are sending to bob, bob opens a channel to us
    and sends an end frame; no metadata is stored, and the error callback is
    not invoked, nor any other. *)
Lemma premature_end_not_reported :
  let J := demo_JSON empty_file in
  let w := after [sendFile_called "bob" None; datachannel 0] constructor in
  let w' := handle w (channel_message 0 (Text "end")) in
  receivers w !! 0%nat = Some (mkReceiver (Some 0%nat) "bob")
  /\ fileMetadata <$> objects w !! 0%nat = Some VNull
  /\ JSON_parse "end" = Some end_frame
  /\ log w' = []
  /\ ~ exists e, onError e ∈ log w'.
Proof.
  intros J w w'. split_and!; [done|done|done|done|].
  intros (e & He). vm_compute in He. by apply elem_of_nil in He.
Qed.

(** C3, amended, on the same input. *)
Lemma malformed_frame_keeps_session_witness :
  let J := demo_JSON empty_file in
  let w := after [sendFile_called "bob" None; datachannel 0] constructor in
  let rx := mkReceiver (Some 0%nat) "bob" in
  let w' := handle w (channel_message 0 (Text "end")) in
  receivers w !! 0%nat = Some rx
  /\ (unparseable "end" \/ premature_end w rx "end")
  /\ peers w' = peers w /\ objects w' = objects w
  /\ connections w' = connections w /\ receivers w' = receivers w
  /\ listening w' = listening w
  /\ (premature_end w rx "end" ->
      task (channel_message 0 (Text "end")) w = (inr tt, w)).
Proof.
  intros J w rx w'.
  assert (H1 : receivers w !! 0%nat = Some rx) by reflexivity.
  assert (H2 : unparseable "end" \/ premature_end w rx "end").
  { right. exists end_frame. split; [reflexivity|]. split; [reflexivity|].
    intros r pd Hget. vm_compute in Hget. injection Hget as <- <-. reflexivity. }
  split; [exact H1|]. split; [exact H2|].
  exact (malformed_frame_keeps_session (H := J) w 0 rx "end" H1 H2).
Defined.

(** C4 as stated fails: two calls of [sendFile] for bob, the second while
    the first waits for its offer, leave two data channels on the one
    connection. *)
Lemma second_sendFile_duplicate_channel :
  let J := demo_JSON empty_file in
  let w := after [sendFile_called "bob" None; sendFile_connected 0 small_file;
                  sendFile_called "bob" None; sendFile_connected 0 empty_file]
                 constructor in
  connections w
  = [mkPc "bob" false [mkLocal "fileTransfer" (Some small_file);
                       mkLocal "fileTransfer" (Some empty_file)]]
  /\ length (objects w) = 1%nat.
Proof. intros J w. by split. Qed.

(** C4, amended: the second call while the first waits for its offer. *)
Lemma second_sendFile_opens_another_channel_witness :
  let J := demo_JSON empty_file in
  let w := after [sendFile_called "bob" None; sendFile_connected 0 small_file]
                 constructor in
  let pd := mkPeerData 0 true [] 0 VNull in
  let c := mkPc "bob" false [mkLocal "fileTransfer" (Some small_file)] in
  let w' := snd (sendFile willing "bob" empty_file w) in
  peers w !! "bob"%string = Some 0%nat
  /\ objects w !! 0%nat = Some pd
  /\ connections w !! pc pd = Some c
  /\ closed c = false
  /\ _getOrCreatePeerConnection (constructs willing) "bob" false w = (inr (pc pd), w)
  /\ peers w' = peers w /\ objects w' = objects w
  /\ connections w'
     = <[pc pd := mkPc (owner c) false
                    (dataChannels c ++ [mkLocal "fileTransfer" (Some empty_file)])]>
         (connections w).
Proof.
  intros J w pd c w'.
  assert (H1 : peers w !! "bob"%string = Some 0%nat) by (vm_compute; reflexivity).
  assert (H2 : objects w !! 0%nat = Some pd) by reflexivity.
  assert (H3 : connections w !! pc pd = Some c) by reflexivity.
  assert (H4 : closed c = false) by reflexivity.
  split_and!; [exact H1|exact H2|exact H3|exact H4|..];
    apply (second_sendFile_opens_another_channel w willing "bob" empty_file false
             0 pd c H1 H2 H3 H4).
Defined.

(** C6 as stated fails: the creation of the offer rejects, the error reaches
    the error callback, and the promise of [sendFile] is fulfilled, not
    rejected. *)
Lemma sendFile_not_rejected :
  let e := OtherError "createOffer failed" in
  createOffer offer_refused = inl e
  /\ fst (sendFile offer_refused "bob" small_file constructor) = inr tt
  /\ fst (sendFile offer_refused "bob" small_file constructor) <> inl e
  /\ log (snd (sendFile offer_refused "bob" small_file constructor)) = [onError e].
Proof. intros e. by split_and!. Qed.

(** C6, amended, on the same input. *)
Lemma sendFile_reports_and_resolves_witness :
  let e := OtherError "createOffer failed" in
  sendFile_fails offer_refused "bob" constructor e
  /\ fst (sendFile offer_refused "bob" small_file constructor) = inr tt
  /\ log (snd (sendFile offer_refused "bob" small_file constructor))
     = log constructor ++ [onError e].
Proof.
  intros e.
  assert (H1 : sendFile_fails offer_refused "bob" constructor e)
    by (apply offer_fails_new; reflexivity).
  destruct (sendFile_reports_and_resolves offer_refused "bob" small_file constructor e
              H1) as (Hfst & Hlog & _).
  split_and!; [exact H1|exact Hfst|exact Hlog].
Defined.

(** C8 on a receiver that has taken one chunk of two bytes and takes a
    second one of one byte. *)
Lemma receivedBytes_counts_chunks_witness :
  let J := demo_JSON small_file in
  let evs := [signal_received "alice" (offer_signal VNull small_file) None;
              offer_connected "alice" (offer_signal VNull small_file);
              datachannel 0; channel_message 0 (Binary [x01; x02])] in
  let ev := channel_message 0 (Binary [x03]) in
  let pd := mkPeerData 0 false [[x01; x02]] 2
              (VObj [("fileName", VStr "small.bin"); ("fileSize", VNum 5);
                     ("fileType", VStr "application/octet-stream")]%string) in
  objects (after evs constructor) !! 0%nat = Some pd
  /\ counted pd
  /\ exists pd',
       objects (handle (after evs constructor) ev) !! 0%nat = Some pd'
       /\ counted pd'
       /\ receivedBytes pd <= receivedBytes pd'
       /\ (forall i P chunk,
             ev = channel_message i (Binary chunk) ->
             receivers (after evs constructor) !! i = Some (mkReceiver (Some 0%nat) P) ->
             receivedChunks pd' = receivedChunks pd ++ [chunk]
             /\ receivedBytes pd' = receivedBytes pd + len chunk).
Proof.
  intros J evs ev pd.
  assert (H1 : objects (after evs constructor) !! 0%nat = Some pd) by reflexivity.
  split; [exact H1|].
  exact (receivedBytes_counts_chunks (H := J) evs ev 0 pd H1).
Defined.

(** C9 as stated fails: the receiver has stored the metadata of the offer
    for [small_file]; a metadata frame that names another file replaces it,
    and so does a second offer from the same peer. *)
Lemma metadata_overwritten :
  let J := demo_JSON empty_file in
  let w := receiver_ready "alice" small_file in
  let second := offer_signal VNull empty_file in
  exists pd pd1 pd2,
    objects w !! 0%nat = Some pd
    /\ truthy (fileMetadata pd) = true
    /\ get (fileMetadata pd) "fileName" = inr (VStr "small.bin")
    /\ objects (handle w (channel_message 0 (Text "metadata"))) !! 0%nat = Some pd1
    /\ get (fileMetadata pd1) "fileName" = inr (VStr "empty.txt")
    /\ fileMetadata pd1 <> fileMetadata pd
    /\ objects (after [signal_received "alice" second None;
                       offer_connected "alice" second] w) !! 0%nat = Some pd2
    /\ get (fileMetadata pd2) "fileName" = inr (VStr "empty.txt")
    /\ fileMetadata pd2 <> fileMetadata pd.
Proof.
  intros J w second. eexists _, _, _.
  split_and!; [reflexivity|reflexivity|reflexivity|reflexivity|reflexivity
              |discriminate|reflexivity|reflexivity|discriminate].
Qed.

(** C9, amended, on the sender's own metadata frame for the offered file. *)
Lemma metadata_written_by_frames_and_offers_witness :
  let J := demo_JSON small_file in
  let w := receiver_ready "alice" small_file in
  let ev := channel_message 0 (Text "metadata") in
  let pd := mkPeerData 0 false [] 0
              (VObj [("fileName", VStr "small.bin"); ("fileSize", VNum 5);
                     ("fileType", VStr "application/octet-stream")]%string) in
  objects w !! 0%nat = Some pd
  /\ exists pd',
       objects (handle w ev) !! 0%nat = Some pd'
       /\ fileMetadata pd' = metadata_frame small_file.
Proof.
  intros J w ev pd.
  assert (H1 : objects w !! 0%nat = Some pd) by reflexivity.
  split; [exact H1|].
  destruct (metadata_written_by_frames_and_offers (H := J) w ev 0 pd H1)
    as (pd' & Hpd' & _ & Hframe & _).
  exists pd'. split; [exact Hpd'|].
  apply (Hframe 0%nat "alice"%string "metadata"%string (metadata_frame small_file));
    reflexivity.
Defined.

(** Scenario 2 of the specification, as a check of the model: a file of
    50000 bytes goes out in chunks of 16384, 16384, 16384 and 848 bytes,
    with progress after each. *)
Example fifty_thousand_bytes :
  let J := demo_JSON empty_file in
  let f := mkFile "f.bin" "application/octet-stream" (repeat x00 (N.to_nat 50000)) in
  let s := run default_chunkSize (replicate 4 (mkTransport 16384 open))
               (_sendFileInChunks default_chunkSize (mkChannel open 0 []) f) in
  map byteSize (sent (channel s)) = [8; 16384; 16384; 16384; 848; 3]
  /\ calls s = [onProgress 16384 (VNum 50000); onProgress 32768 (VNum 50000);
                onProgress 49152 (VNum 50000); onProgress 50000 (VNum 50000)]
  /\ next s = idle.
Proof. vm_compute. by split_and!. Qed.

(** * The further properties on concrete inputs *)

(** X1 on [small_file] with chunk size 2, on a channel that closes while the
    third chunk is being read. *)
Lemma sent_stream_is_file_prefix_witness :
  let J := demo_JSON small_file in
  let c := mkChannel open 0 [] in
  let ts := [mkTransport 0 open; mkTransport 0 open; mkTransport 2 Sender.closed;
             mkTransport 0 open] in
  let s := run 2 ts (_sendFileInChunks 2 c small_file) in
  ready c = open
  /\ sent c = []
  /\ offset s = 4
  /\ exists chunks (fin : bool),
       sent (channel s)
       = Text (JSON_stringify (metadata_frame small_file))
         :: (Binary <$> chunks)
         ++ (if fin then [Text (JSON_stringify end_frame)] else [])
       /\ concat chunks = take (N.to_nat (offset s)) (bytes small_file)
       /\ Forall (fun b => len b <= 2) chunks
       /\ (fin = true -> concat chunks = bytes small_file /\ next s = idle).
Proof.
  intros J c ts s.
  assert (H1 : ready c = open) by reflexivity.
  assert (H2 : sent c = []) by reflexivity.
  split_and!; [exact H1|exact H2|reflexivity|].
  exact (sent_stream_is_file_prefix (H := J) 2 small_file c ts H1 H2).
Defined.

(** X2 on [small_file] with chunk size 2: three chunks, three reports. *)
Lemma progress_follows_chunks_witness :
  let J := demo_JSON small_file in
  let c := mkChannel open 0 [] in
  let ts := replicate 3 (mkTransport 0 open) in
  let s := run 2 ts (_sendFileInChunks 2 c small_file) in
  ready c = open
  /\ sent c = []
  /\ calls s = [onProgress 2 (VNum 5); onProgress 4 (VNum 5); onProgress 5 (VNum 5)]
  /\ calls s = progress_after (size small_file) 0 (binaries (sent (channel s)))
  /\ Forall (fun e => exists done, e = onProgress done (VNum (Z.of_N (size small_file)))
                                   /\ done <= size small_file) (calls s)
  /\ (forall e, last (calls s) = Some e ->
                e = onProgress (offset s) (VNum (Z.of_N (size small_file)))).
Proof.
  intros J c ts s.
  assert (H1 : ready c = open) by reflexivity.
  assert (H2 : sent c = []) by reflexivity.
  split_and!; [exact H1|exact H2|reflexivity|..];
    apply (progress_follows_chunks (H := J) 2 small_file c ts H1 H2).
Defined.

(** X5 on a candidate from a peer that has no entry. *)
Lemma answer_and_candidate_change_no_session_witness :
  let data := candidate_signal (VStr "candidate") in
  (get data "type" = inr (VStr "answer")
   \/ get data "type" = inr (VStr "ice-candidate"))
  /\ peers_get constructor "mallory" = None
  /\ snd (_handleSignal willing "mallory" data constructor) = constructor.
Proof.
  intros data.
  assert (H1 : get data "type" = inr (VStr "answer")
               \/ get data "type" = inr (VStr "ice-candidate")) by (right; reflexivity).
  assert (H2 : peers_get constructor "mallory" = None) by reflexivity.
  destruct (answer_and_candidate_change_no_session willing "mallory" data constructor H1)
    as (_ & _ & _ & _ & Hdrop & _).
  split_and!; [exact H1|exact H2|exact (Hdrop H2)].
Defined.

(** X7 on the first [sendFile] of a new instance. *)
Lemma sendFile_emits_offer_witness :
  let J := demo_JSON small_file in
  constructs willing = None
  /\ createOffer willing = inr (VStr "sdp")
  /\ setLocalDescription willing = None
  /\ log (snd (sendFile willing "bob" small_file (after [] constructor)))
     = log (after [] constructor) ++ [emit "bob" (offer_signal (VStr "sdp") small_file)].
Proof.
  intros J.
  assert (H1 : constructs willing = None) by reflexivity.
  assert (H2 : createOffer willing = inr (VStr "sdp")) by reflexivity.
  assert (H3 : setLocalDescription willing = None) by reflexivity.
  destruct (sendFile_emits_offer (H := J) [] willing "bob" small_file (VStr "sdp")
              H1 H2 H3) as (Hlog & _).
  split_and!; [exact H1|exact H2|exact H3|exact Hlog].
Defined.

(** X8 on the first offer a new instance receives. *)
Lemma offer_stores_metadata_and_answers_witness :
  let J := demo_JSON small_file in
  let fields := [("type", VStr "offer"); ("sdp", VNull);
                 ("fileName", VStr "small.bin"); ("fileSize", VNum 5);
                 ("fileType", VStr "application/octet-stream")]%string in
  field "type" fields = VStr "offer"
  /\ constructs willing = None
  /\ setRemoteDescription willing = None
  /\ createAnswer willing = inr (VStr "sdp")
  /\ setLocalDescription willing = None
  /\ log (snd (_handleSignal willing "alice" (VObj fields) (after [] constructor)))
     = log (after [] constructor) ++ [emit "alice" (answer_signal (VStr "sdp"))].
Proof.
  intros J fields.
  assert (H1 : field "type" fields = VStr "offer") by reflexivity.
  assert (H2 : constructs willing = None) by reflexivity.
  assert (H3 : setRemoteDescription willing = None) by reflexivity.
  assert (H4 : createAnswer willing = inr (VStr "sdp")) by reflexivity.
  assert (H5 : setLocalDescription willing = None) by reflexivity.
  destruct (offer_stores_metadata_and_answers (H := J) [] willing "alice" fields
              (VStr "sdp") H1 H2 H3 H4 H5) as (Hlog & _).
  split_and!; [exact H1|exact H2|exact H3|exact H4|exact H5|exact Hlog].
Defined.

(** X9 between two new instances, alice sending [small_file] to bob. *)
Lemma offer_carries_file_metadata_witness :
  let J := demo_JSON small_file in
  constructs willing = None
  /\ createOffer willing = inr (VStr "sdp")
  /\ setLocalDescription willing = None
  /\ setRemoteDescription willing = None
  /\ createAnswer willing = inr (VStr "sdp")
  /\ exists data,
       last (log (snd (sendFile willing "bob" small_file (after [] constructor))))
       = Some (emit "bob" data)
       /\ exists r pd,
            peers (snd (_handleSignal willing "alice" data (after [] constructor)))
              !! "alice"%string = Some r
            /\ objects (snd (_handleSignal willing "alice" data (after [] constructor)))
                 !! r = Some pd
            /\ fileMetadata pd
               = VObj [("fileName", VStr "small.bin"); ("fileSize", VNum 5);
                       ("fileType", VStr "application/octet-stream")]%string.
Proof.
  intros J.
  assert (H1 : constructs willing = None) by reflexivity.
  assert (H2 : createOffer willing = inr (VStr "sdp")) by reflexivity.
  assert (H3 : setLocalDescription willing = None) by reflexivity.
  assert (H4 : setRemoteDescription willing = None) by reflexivity.
  assert (H5 : createAnswer willing = inr (VStr "sdp")) by reflexivity.
  destruct (offer_carries_file_metadata (H := J) [] [] willing willing "alice" "bob"
              small_file (VStr "sdp") (VStr "sdp") H1 H2 H3 H1 H4 H5 H3)
    as (data & Hlast & _ & r & pd & Hr & Hpd & Hmeta).
  split_and!; [exact H1|exact H2|exact H3|exact H4|exact H5|].
  exists data. split; [exact Hlast|]. exists r, pd.
  split_and!; [exact Hr|exact Hpd|exact Hmeta].
Defined.

(** X10 on a [createOffer] that rejects. *)
Lemma failed_offer_leaves_session_witness :
  let e := OtherError "createOffer failed" in
  let w' := snd (sendFile offer_refused "bob" small_file constructor) in
  peers constructor !! "bob"%string = None
  /\ constructs offer_refused = None
  /\ createOffer offer_refused = inl e
  /\ log w' = log constructor ++ [onError e]
  /\ connections w'
     = connections constructor
       ++ [mkPc "bob" false [mkLocal "fileTransfer" (Some small_file)]]
  /\ live w' (length (connections constructor)) "bob".
Proof.
  intros e w'.
  assert (H1 : peers constructor !! "bob"%string = None) by reflexivity.
  assert (H2 : constructs offer_refused = None) by reflexivity.
  assert (H3 : createOffer offer_refused = inl e) by reflexivity.
  destruct (failed_offer_leaves_session offer_refused "bob" small_file constructor e
              H1 H2 (or_introl H3)) as (Hlog & _ & _ & Hconn & Hlive).
  split_and!; [exact H1|exact H2|exact H3|exact Hlog|exact Hconn|exact Hlive].
Defined.

(** X11 on the connection to bob going ['failed']. *)
Lemma connection_state_teardown_witness :
  let J := demo_JSON small_file in
  let w := after [sendFile_called "bob" None] constructor in
  let c := mkPc "bob" false [] in
  let w' := handle w (connectionstatechange 0 "failed") in
  connections w !! 0%nat = Some c
  /\ log w' = log w ++ [onConnectionStateChange "bob" "failed"]
  /\ peers w' !! "bob"%string = None
  /\ forall q, ~ live w' q "bob".
Proof.
  intros J w c w'.
  assert (H1 : connections w !! 0%nat = Some c) by reflexivity.
  destruct (connection_state_teardown (H := J) [sendFile_called "bob" None] 0 c
              "failed" H1) as (Hlog & _ & Hdown & _).
  destruct (Hdown (or_intror (or_introl eq_refl))) as (Hpeers & Hlive).
  split_and!; [exact H1|exact Hlog|exact Hpeers|exact Hlive].
Defined.

(** X12 on a channel that bob opens on a connection we initiated: no offer
    of his has stored any metadata. *)
Lemma early_chunk_is_buffered_silently_witness :
  let J := demo_JSON small_file in
  let w := after [sendFile_called "bob" None; datachannel 0] constructor in
  let pd := mkPeerData 0 true [] 0 VNull in
  let w1 := handle w (channel_message 0 (Binary [x01; x02])) in
  let w2 := after [channel_message 0 (Text "metadata");
                   channel_message 0 (Binary [x03])] w1 in
  receivers w !! 0%nat = Some (mkReceiver (Some 0%nat) "bob")
  /\ objects w !! 0%nat = Some pd
  /\ truthy (fileMetadata pd) = false
  /\ JSON_parse "metadata" = Some (metadata_frame small_file)
  /\ get (metadata_frame small_file) "type" = inr (VStr "metadata")
  /\ log w1 = log w
  /\ exists total,
       get (metadata_frame small_file) "fileSize" = inr total
       /\ log w2 = log w ++ [onProgress (receivedBytes pd + len [x01; x02] + len [x03])
                                        total].
Proof.
  intros J w pd w1 w2.
  assert (H1 : receivers w !! 0%nat = Some (mkReceiver (Some 0%nat) "bob"))
    by reflexivity.
  assert (H2 : objects w !! 0%nat = Some pd) by reflexivity.
  assert (H3 : truthy (fileMetadata pd) = false) by reflexivity.
  assert (H4 : JSON_parse "metadata" = Some (metadata_frame small_file)) by reflexivity.
  assert (H5 : get (metadata_frame small_file) "type" = inr (VStr "metadata"))
    by reflexivity.
  destruct (early_chunk_is_buffered_silently (H := J) w 0 0 "bob" pd [x01; x02] [x03]
              "metadata" (metadata_frame small_file) H1 H2 H3 H4 H5)
    as (_ & Hlog1 & _ & total & Htotal & Hlog2 & _).
  split_and!; [exact H1|exact H2|exact H3|exact H4|exact H5|exact Hlog1|].
  exists total. split; [exact Htotal|exact Hlog2].
Defined.

(** X13 on a receiver that holds one chunk of two bytes of a file announced
    with five. *)
Lemma end_frame_completes_once_witness :
  let J := demo_JSON small_file in
  let evs := [signal_received "alice" (offer_signal VNull small_file) None;
              offer_connected "alice" (offer_signal VNull small_file);
              datachannel 0; channel_message 0 (Binary [x01; x02])] in
  let w := after evs constructor in
  let rx := mkReceiver (Some 0%nat) "alice" in
  let pd := mkPeerData 0 false [[x01; x02]] 2
              (VObj [("fileName", VStr "small.bin"); ("fileSize", VNum 5);
                     ("fileType", VStr "application/octet-stream")]%string) in
  let w' := handle w (channel_message 0 (Text "end")) in
  receivers w !! 0%nat = Some rx
  /\ peers w !! rx_peerId rx = Some 0%nat
  /\ objects w !! 0%nat = Some pd
  /\ JSON_parse "end" = Some end_frame
  /\ get end_frame "type" = inr (VStr "end")
  /\ truthy (fileMetadata pd) = true
  /\ exists blob fileName,
       log w' = log w ++ [onComplete blob fileName "alice"]
       /\ blob_bytes blob = [x01; x02]
       /\ blob_size blob = 2
       /\ peers w' !! "alice"%string = None
       /\ handle w' (channel_message 0 (Text "end")) = w'.
Proof.
  intros J evs w rx pd w'.
  assert (H1 : receivers w !! 0%nat = Some rx) by reflexivity.
  assert (H2 : peers w !! rx_peerId rx = Some 0%nat) by (vm_compute; reflexivity).
  assert (H3 : objects w !! 0%nat = Some pd) by reflexivity.
  assert (H4 : JSON_parse "end" = Some end_frame) by reflexivity.
  assert (H5 : get end_frame "type" = inr (VStr "end")) by reflexivity.
  assert (H6 : truthy (fileMetadata pd) = true) by reflexivity.
  destruct (end_frame_completes_once (H := J) evs 0 rx 0 pd "end" end_frame
              H1 H2 H3 H4 H5 H6)
    as (blob & fileName & Hlog & Hbytes & Hsize & _ & _ & Hgone & _ & Honce).
  split_and!; [exact H1|exact H2|exact H3|exact H4|exact H5|exact H6|].
  exists blob, fileName.
  split_and!; [exact Hlog|exact Hbytes|exact Hsize|exact Hgone|exact Honce].
Defined.

(** X14 across a chunk, the completion and [destroy]. *)
Lemma chunks_are_only_appended_witness :
  let J := demo_JSON small_file in
  let w := receiver_ready "alice" small_file in
  let pd := mkPeerData 0 false [] 0
              (VObj [("fileName", VStr "small.bin"); ("fileSize", VNum 5);
                     ("fileType", VStr "application/octet-stream")]%string) in
  let evs := [channel_message 0 (Binary [x01; x02]); channel_message 0 (Text "end");
              destroy_called] in
  objects w !! 0%nat = Some pd
  /\ exists pd',
       objects (after evs w) !! 0%nat = Some pd'
       /\ pc pd' = pc pd
       /\ isInitiator pd' = isInitiator pd
       /\ receivedChunks pd `prefix_of` receivedChunks pd'.
Proof.
  intros J w pd evs.
  assert (H1 : objects w !! 0%nat = Some pd) by reflexivity.
  split; [exact H1|].
  exact (chunks_are_only_appended (H := J) evs w 0 pd H1).
Defined.

(** X15 on two channels arriving on alice's connection. *)
Lemma channels_of_one_session_share_buffer_witness :
  let J := demo_JSON small_file in
  let w := after [signal_received "alice" (offer_signal VNull small_file) None;
                  offer_connected "alice" (offer_signal VNull small_file)]
                 constructor in
  let c := mkPc "alice" false [] in
  let pd := mkPeerData 0 false [] 0
              (VObj [("fileName", VStr "small.bin"); ("fileSize", VNum 5);
                     ("fileType", VStr "application/octet-stream")]%string) in
  let w' := after [datachannel 0; datachannel 0;
                   channel_message 0 (Binary [x01]); channel_message 1 (Binary [x02])]
                  w in
  connections w !! 0%nat = Some c
  /\ peers w !! owner c = Some 0%nat
  /\ objects w !! 0%nat = Some pd
  /\ exists pd',
       objects w' !! 0%nat = Some pd'
       /\ receivedChunks pd' = receivedChunks pd ++ [[x01]; [x02]]
       /\ receivedBytes pd' = receivedBytes pd + len [x01] + len [x02].
Proof.
  intros J w c pd w'.
  assert (H1 : connections w !! 0%nat = Some c) by reflexivity.
  assert (H2 : peers w !! owner c = Some 0%nat) by (vm_compute; reflexivity).
  assert (H3 : objects w !! 0%nat = Some pd) by reflexivity.
  split_and!; [exact H1|exact H2|exact H3|].
  exact (channels_of_one_session_share_buffer (H := J) w 0 c 0 pd [x01] [x02] H1 H2 H3).
Defined.

(** X16 on a text frame that does not parse. *)
Lemma receive_errors_are_not_reported_witness :
  let J := demo_JSON small_file in
  let w := receiver_ready "alice" small_file in
  task (channel_message 0 (Text "garbage")) w = (inl SyntaxError, w)
  /\ exists rx, receivers w !! 0%nat = Some rx.
Proof.
  intros J w.
  assert (H1 : task (channel_message 0 (Text "garbage")) w = (inl SyntaxError, w))
    by reflexivity.
  destruct (receive_errors_are_not_reported (H := J) w w 0 (Text "garbage") SyntaxError H1)
    as (_ & rx & Hrx & _).
  split; [exact H1|]. exists rx. exact Hrx.
Defined.

(** X18 on a failed connection to bob, across a second [sendFile] to bob and
    [destroy]. *)
Lemma closed_connections_stay_closed_witness :
  let J := demo_JSON small_file in
  let w := after [sendFile_called "bob" None; connectionstatechange 0 "failed"]
                 constructor in
  let c := mkPc "bob" true [] in
  let evs := [sendFile_called "bob" None; sendFile_connected 1 small_file;
              destroy_called] in
  connections w !! 0%nat = Some c
  /\ exists c',
       connections (after evs w) !! 0%nat = Some c'
       /\ owner c' = owner c
       /\ (closed c = true -> closed c' = true)
       /\ (length (dataChannels c) <= length (dataChannels c'))%nat.
Proof.
  intros J w c evs.
  assert (H1 : connections w !! 0%nat = Some c) by reflexivity.
  split; [exact H1|].
  exact (closed_connections_stay_closed (H := J) evs w 0 c H1).
Defined.

(** X19 on the second chunk of [small_file]. *)
Lemma receiver_progress_counts_bytes_witness :
  let J := demo_JSON small_file in
  let evs := [signal_received "alice" (offer_signal VNull small_file) None;
              offer_connected "alice" (offer_signal VNull small_file);
              datachannel 0; channel_message 0 (Binary [x01; x02])] in
  let w := after evs constructor in
  let pd := mkPeerData 0 false [[x01; x02]] 2
              (VObj [("fileName", VStr "small.bin"); ("fileSize", VNum 5);
                     ("fileType", VStr "application/octet-stream")]%string) in
  let w' := handle w (channel_message 0 (Binary [x03; x04; x05])) in
  receivers w !! 0%nat = Some (mkReceiver (Some 0%nat) "alice")
  /\ objects w !! 0%nat = Some pd
  /\ truthy (fileMetadata pd) = true
  /\ exists total,
       get (fileMetadata pd) "fileSize" = inr total
       /\ log w' = log w ++ [onProgress (len (concat (receivedChunks pd
                                                      ++ [[x03; x04; x05]]))) total].
Proof.
  intros J evs w pd w'.
  assert (H1 : receivers w !! 0%nat = Some (mkReceiver (Some 0%nat) "alice"))
    by reflexivity.
  assert (H2 : objects w !! 0%nat = Some pd) by reflexivity.
  assert (H3 : truthy (fileMetadata pd) = true) by reflexivity.
  destruct (receiver_progress_counts_bytes (H := J) evs 0 0 "alice" pd [x03; x04; x05]
              H1 H2 H3) as (total & Htotal & Hlog & _).
  split_and!; [exact H1|exact H2|exact H3|].
  exists total. split; [exact Htotal|exact Hlog].
Defined.

